(** * The message content pipeline of [EmailViewer.js]

    A shallow embedding of the logic of [src/components/EmailViewer.js]:
    [decodeContent], [extractEmailContent] (with its inner [findParts]),
    [getEmailHeaders], [extractVerifyUrl], and the WebSocket handling of
    [connectWebSocket] together with the [verificationStatus] state.

    Conventions.
    - A JavaScript string is its sequence of UTF-16 code units, [list N].
      [js "..."] turns a literal into code units.
    - Code that can throw runs in the error monad [exn]; [try_catch] is the
      [try { } catch { }] statement.
    - A JavaScript object used as a dictionary is a [gmap] over its own
      properties; the object that [getEmailHeaders] fills by assignment
      has its prototype beside them. *)

From Stdlib Require Import NArith ZArith String Ascii Lia.
From stdpp Require Import gmap list.

Local Open Scope N_scope.
Set Warnings "-register-all".

(** ** Strings *)

Definition jsstring := list N.

Definition js (s : string) : jsstring :=
  map N_of_ascii (list_ascii_of_string s).

(** ** Exceptions *)

Inductive error :=
| SyntaxError
| TypeError
| InvalidCharacterError
| InvalidStateError.

Inductive exn (A : Type) : Type :=
| Ok (a : A)
| Throw (e : error).

Arguments Ok {A} a.
Arguments Throw {A} e.

Definition exn_bind {A B} (c : exn A) (k : A -> exn B) : exn B :=
  match c with
  | Ok a => k a
  | Throw e => Throw e
  end.

Notation "x <- c ;; k" := (exn_bind c (fun x => k))
  (at level 100, c at next level, right associativity).

(** [try { body } catch (e) { handler }] *)
Definition try_catch {A} (body : exn A) (handler : error -> exn A) : exn A :=
  match body with
  | Ok a => Ok a
  | Throw e => handler e
  end.

Definition raises {A} (c : exn A) : Prop := exists e, c = Throw e.

(** ** [String.prototype.replace(/c/g, d)] for a one-character pattern *)

Definition replace_char (c d : N) (s : jsstring) : jsstring :=
  map (fun x => if x =? c then d else x) s.

(** ** [atob] *)

Module Base64.

(** ASCII whitespace of the Infra standard: TAB, LF, FF, CR, SPACE. *)
Definition is_ascii_whitespace (c : N) : bool :=
  (c =? 9) || (c =? 10) || (c =? 12) || (c =? 13) || (c =? 32).

(** Position of a code unit in the base64 alphabet [A-Za-z0-9+/]. *)
Definition sextet (c : N) : option N :=
  if (65 <=? c) && (c <=? 90) then Some (c - 65)
  else if (97 <=? c) && (c <=? 122) then Some (c - 97 + 26)
  else if (48 <=? c) && (c <=? 57) then Some (c - 48 + 52)
  else if c =? 43 then Some 62
  else if c =? 47 then Some 63
  else None.

(** One or two trailing [=] are removed. *)
Definition strip_padding (s : jsstring) : jsstring :=
  match rev s with
  | 61 :: 61 :: r => rev r
  | 61 :: r => rev r
  | _ => s
  end.

Fixpoint sextets (s : jsstring) : option (list N) :=
  match s with
  | [] => Some []
  | c :: t =>
      match sextet c, sextets t with
      | Some v, Some vs => Some (v :: vs)
      | _, _ => None
      end
  end.

(** 24 bits give three bytes; a rest of 12 bits gives one byte and a rest
    of 18 bits two, the low 4 resp. 2 bits being discarded. *)
Fixpoint bytes (l : list N) : jsstring :=
  match l with
  | a :: b :: c :: d :: rest =>
      let n := a * 262144 + b * 4096 + c * 64 + d in
      (n / 65536) :: ((n / 256) mod 256) :: (n mod 256) :: bytes rest
  | [a; b; c] =>
      let n := (a * 4096 + b * 64 + c) / 4 in
      [n / 256; n mod 256]
  | [a; b] => [(a * 64 + b) / 16]
  | _ => []
  end.

(** The forgiving-base64 decode; [None] is failure. *)
Definition forgiving_decode (data : jsstring) : option jsstring :=
  let data := filter (fun c => is_ascii_whitespace c = false) data in
  let data :=
    if N.of_nat (length data) mod 4 =? 0 then strip_padding data else data in
  if N.of_nat (length data) mod 4 =? 1 then None
  else option_map bytes (sextets data).

End Base64.

(** Modelled from the spec: [atob] is the browser's builtin, absent from the
    repository; the spec has it decode the standard transport encoding into
    raw bytes. It runs the forgiving-base64 decode of the Infra standard on
    its argument and throws [InvalidCharacterError] on failure. *)
Definition atob (data : jsstring) : exn jsstring :=
  match Base64.forgiving_decode data with
  | Some out => Ok out
  | None => Throw InvalidCharacterError
  end.

(** ** [quotedPrintable.decode] *)

Module QuotedPrintable.

Definition is_line_terminator (c : N) : bool :=
  (c =? 10) || (c =? 13) || (c =? 8232) || (c =? 8233).

(** [.replace(/[\t\x20]$/gm, '')]: a TAB or SPACE standing right before a
    line terminator or the end of the input is removed. *)
Fixpoint strip_trailing_space (s : jsstring) : jsstring :=
  match s with
  | [] => []
  | c :: t =>
      if ((c =? 9) || (c =? 32)) &&
         match t with
         | [] => true
         | d :: _ => is_line_terminator d
         end
      then strip_trailing_space t
      else c :: strip_trailing_space t
  end.

(** [.replace(/=(?:\r\n?|\n|$)/g, '')]: soft line breaks. *)
Fixpoint strip_soft_breaks (s : jsstring) : jsstring :=
  match s with
  | [] => []
  | c :: t =>
      if c =? 61 then
        match t with
        | [] => []
        | 13 :: 10 :: r => strip_soft_breaks r
        | 13 :: r => strip_soft_breaks r
        | 10 :: r => strip_soft_breaks r
        | _ => c :: strip_soft_breaks t
        end
      else c :: strip_soft_breaks t
  end.

(** Value of a hexadecimal digit [a-fA-F0-9]. *)
Definition hex (c : N) : option N :=
  if (48 <=? c) && (c <=? 57) then Some (c - 48)
  else if (65 <=? c) && (c <=? 70) then Some (c - 65 + 10)
  else if (97 <=? c) && (c <=? 102) then Some (c - 97 + 10)
  else None.

(** [.replace(/=([a-fA-F0-9]{2})/g, ...)]: [=XX] becomes the character
    with code [parseInt(XX, 16)]. *)
Fixpoint unescape (s : jsstring) : jsstring :=
  match s with
  | [] => []
  | c :: t =>
      if c =? 61 then
        match t with
        | a :: b :: r =>
            match hex a, hex b with
            | Some x, Some y => (16 * x + y) :: unescape r
            | _, _ => c :: unescape t
            end
        | _ => c :: unescape t
        end
      else c :: unescape t
  end.

Definition decode (input : jsstring) : jsstring :=
  unescape (strip_soft_breaks (strip_trailing_space input)).

End QuotedPrintable.

(** Modelled from the spec: [quotedPrintable.decode] belongs to the npm
    package [quoted-printable], absent from the repository; the spec has it
    decode the quoted-printable escapes of the byte stream. It applies the
    three global replacements of [QuotedPrintable] and throws nothing. *)
Definition quotedPrintable_decode (input : jsstring) : exn jsstring :=
  Ok (QuotedPrintable.decode input).

(** ** [decodeContent] *)

Section DecodeContent.

(** The two library calls; the concrete ones are plugged in below. *)
Variable atob_fn : jsstring -> exn jsstring.
Variable qp_decode_fn : jsstring -> exn jsstring.

(** [encoded] is [None] when absent ([undefined] or [null]). *)
Definition decodeContent_with (encoded : option jsstring) : exn jsstring :=
  match encoded with
  | None => Ok []
  | Some [] => Ok []
  | Some encoded =>
      try_catch
        (let base64 := replace_char 95 47 (replace_char 45 43 encoded) in
         decodedBase64 <- atob_fn base64 ;;
         qp_decode_fn decodedBase64)
        (fun _ => Ok encoded)
  end.

End DecodeContent.

Definition decodeContent : option jsstring -> exn jsstring :=
  decodeContent_with atob quotedPrintable_decode.

(** ** JSON values *)

(** A value as [JSON.parse] or a JSON response delivers it, plus
    [undefined] for a property that is not there. [JNum n] is the Number
    that [JSON.parse] makes of the integer literal [n]: the double nearest
    to [n], which is [n] itself up to 2^53. Numbers with a fraction are left
    out of the model. An object lists its own properties, each name once. *)
Inductive jsval :=
| JUndefined
| JNull
| JBool (b : bool)
| JNum (n : Z)
| JStr (s : jsstring)
| JArr (elems : list jsval)
| JObj (props : list (jsstring * jsval)).

Fixpoint assoc (k : jsstring) (props : list (jsstring * jsval)) : option jsval :=
  match props with
  | [] => None
  | (k', v) :: r => if decide (k' = k) then Some v else assoc k r
  end.

(** [v.name] for a property name the builtin prototypes do not define (the
    source reads [type], [messageId], [status], [name], [value], [id] and
    [verificationStatus]): reading from [undefined] or [null] throws, a
    missing property reads as [undefined]. *)
Definition get_prop (v : jsval) (name : jsstring) : exn jsval :=
  match v with
  | JUndefined | JNull => Throw TypeError
  | JObj props => Ok (default JUndefined (assoc name props))
  | _ => Ok JUndefined
  end.

(** [a === b] where [b] is a string literal. *)
Definition strict_eq_str (a : jsval) (b : jsstring) : bool :=
  match a with
  | JStr s => bool_decide (s = b)
  | _ => false
  end.

Fixpoint uint_codes (d : Decimal.uint) : jsstring :=
  match d with
  | Decimal.Nil => []
  | Decimal.D0 r => 48 :: uint_codes r
  | Decimal.D1 r => 49 :: uint_codes r
  | Decimal.D2 r => 50 :: uint_codes r
  | Decimal.D3 r => 51 :: uint_codes r
  | Decimal.D4 r => 52 :: uint_codes r
  | Decimal.D5 r => 53 :: uint_codes r
  | Decimal.D6 r => 54 :: uint_codes r
  | Decimal.D7 r => 55 :: uint_codes r
  | Decimal.D8 r => 56 :: uint_codes r
  | Decimal.D9 r => 57 :: uint_codes r
  end.

(** The decimal digits of a number that is not negative. *)
Definition decimal (n : Z) : jsstring :=
  match n with
  | Zpos p => uint_codes (Pos.to_uint p)
  | _ => js "0"
  end.

(** The double nearest to a positive integer, ties going to the even
    significand of 53 bits. *)
Definition to_double (v : Z) : Z :=
  let e := (Z.log2 v - 52)%Z in
  if (e <=? 0)%Z then v
  else
    let q := Z.shiftr v e in
    let r := (v - Z.shiftl q e)%Z in
    let half := Z.shiftl 1 (e - 1) in
    if (r <? half)%Z then Z.shiftl q e
    else if (half <? r)%Z then Z.shiftl (q + 1) e
    else if Z.even q then Z.shiftl q e
    else Z.shiftl (q + 1) e.

(** The decimal with the fewest significant digits that reads back as the
    double [x]: multiples of 10^p are tried from the largest [p] down, the
    one below [x] and the one above; of two that read back as [x] the
    nearer one is taken. *)
Fixpoint shortest (x : Z) (p : nat) : Z :=
  match p with
  | O => x
  | S p' =>
      let u := (10 ^ Z.of_nat p)%Z in
      let lo := (x / u * u)%Z in
      let hi := (lo + u)%Z in
      match (to_double lo =? x)%Z, (to_double hi =? x)%Z with
      | true, true =>
          if (x - lo <? hi - x)%Z then lo
          else if (hi - x <? x - lo)%Z then hi
          else if Z.even (x / u) then lo
          else hi
      | true, false => lo
      | false, true => hi
      | false, false => shortest x p'
      end
  end.

Fixpoint strip_trailing_zeros (d : jsstring) : jsstring :=
  match d with
  | [] => []
  | c :: r =>
      match strip_trailing_zeros r with
      | [] => if c =? 48 then [] else [c]
      | r' => c :: r'
      end
  end.

(** The digits of [v] as [Number::toString] lays them out: in full below
    10^21, and from there on the significant digits, a point after the
    first one when there are more, and the exponent. *)
Definition render (v : Z) : jsstring :=
  let d := decimal v in
  if (v <? 10 ^ 21)%Z then d
  else
    let exponent := js "e+" ++ decimal (Z.of_nat (length d) - 1) in
    match strip_trailing_zeros d with
    | [] => d
    | [c] => c :: exponent
    | c :: r => c :: 46 :: r ++ exponent
    end.

(** Modelled from the spec: [Number::toString] of ECMA-262 for a Number
    with an integral value, in the variant of its second note, which the
    engines implement: the digits are the fewest that read back as the
    same double, and the nearest to it among those. From 2^1024 - 2^970 on
    [JSON.parse] gives [Infinity]. *)
Definition Number_toString (n : Z) : jsstring :=
  let positive (v : Z) : jsstring :=
    let x := to_double v in
    if (2 ^ 1024 <=? x)%Z then js "Infinity"
    else render (shortest x (length (decimal x) - 1)) in
  match n with
  | Z0 => js "0"
  | Zpos p => positive n
  | Zneg p => 45 :: positive (Zpos p)
  end.

Definition join_comma (l : list jsstring) : jsstring :=
  match l with
  | [] => []
  | x :: r => x ++ flat_map (fun y => 44 :: y) r
  end.

(** [ToString], which turns a computed property key into a property name;
    an array joins its elements with commas, [null] and [undefined]
    elements giving the empty string. *)
Fixpoint ToString (v : jsval) : jsstring :=
  match v with
  | JUndefined => js "undefined"
  | JNull => js "null"
  | JBool true => js "true"
  | JBool false => js "false"
  | JNum n => Number_toString n
  | JStr s => s
  | JArr elems =>
      join_comma
        (map (fun e => match e with
                       | JUndefined | JNull => []
                       | _ => ToString e
                       end) elems)
  | JObj _ => js "[object Object]"
  end.

(** ** [Array.prototype.forEach] with a callback that may throw *)

Definition forEach {A S} (f : A -> S -> exn S) : list A -> S -> exn S :=
  fix go (l : list A) (s : S) : exn S :=
    match l with
    | [] => Ok s
    | x :: r => s' <- f x s ;; go r s'
    end.

(** ** Parts *)

Record Body := mkBody { data : option jsstring }.

(** A node of the message tree. [None] is an absent field. *)
Inductive Part := mkPart {
  mimeType : jsstring;
  body : option Body;
  parts : option (list Part);
  headers : option (list jsval)
}.

(** [part.body?.data] *)
Definition body_data (part : Part) : option jsstring :=
  match body part with
  | Some b => data b
  | None => None
  end.

(** Truthiness of an optional string: present and not empty. *)
Definition truthy (d : option jsstring) : bool :=
  match d with
  | Some (_ :: _) => true
  | _ => false
  end.

(** ** [extractEmailContent] *)

(** The closure variables [text] and [html] of [extractEmailContent]. *)
Record Vars := mkVars { text : jsstring; html : jsstring }.

Record Content := mkContent { textContent : jsstring; htmlContent : jsstring }.

Definition is_mime (m : string) (part : Part) : bool :=
  bool_decide (mimeType part = js m).

(** [findParts] on a part that is there; the [if (!part) return] guard is
    the [None] case of [extractEmailContent], children being parts. *)
Fixpoint findParts (part : Part) (v : Vars) : exn Vars :=
  if is_mime "text/plain" part && truthy (body_data part) then
    t <- decodeContent (body_data part) ;;
    Ok {| text := t; html := html v |}
  else if is_mime "text/html" part && truthy (body_data part) then
    h <- decodeContent (body_data part) ;;
    Ok {| text := text v; html := h |}
  else
    match parts part with
    | Some (c :: r) => forEach findParts (c :: r) v
    | _ => Ok v
    end.

Definition extractEmailContent (payload : option Part) : exn Content :=
  match payload with
  | None => Ok {| textContent := []; htmlContent := [] |}
  | Some part =>
      v <- findParts part {| text := []; html := [] |} ;;
      Ok {| textContent := text v; htmlContent := html v |}
  end.

(** ** [getEmailHeaders] *)

(** What an object inherits from: [Object.prototype], as an object literal
    does at first, nothing, or a value that an assignment to [__proto__]
    has put in that place. *)
Inductive Prototype :=
| ObjectPrototype
| NullPrototype
| ValuePrototype (v : jsval).

(** The object [headers]: its own properties and its prototype. *)
Record PlainObject := mkPlainObject {
  own : gmap jsstring jsval;
  prototype : Prototype
}.

(** The object literal [{}]. *)
Global Instance PlainObject_empty : Empty PlainObject :=
  {| own := ∅; prototype := ObjectPrototype |}.

Definition set_own (key : jsstring) (value : jsval) (o : PlainObject) : PlainObject :=
  {| own := <[key := value]> (own o); prototype := prototype o |}.

(** Whether an assignment to [__proto__] that goes up the prototype chain
    arrives at the accessor of [Object.prototype]. It does not when the
    chain is empty, and not when the object in the chain has a property of
    that name of its own, as [JSON.parse] makes it for such a key. The
    builtin prototypes are as the language defines them. *)
Definition reaches_proto_setter (p : Prototype) : bool :=
  match p with
  | ObjectPrototype => true
  | NullPrototype => false
  | ValuePrototype (JObj props) =>
      match assoc (js "__proto__") props with
      | Some _ => false
      | None => true
      end
  | ValuePrototype _ => true
  end.

(** The setter of [Object.prototype.__proto__]: an object or [null]
    becomes the prototype, any other value is ignored. *)
Definition set_prototype (value : jsval) (o : PlainObject) : PlainObject :=
  match value with
  | JNull => {| own := own o; prototype := NullPrototype |}
  | JObj _ | JArr _ => {| own := own o; prototype := ValuePrototype value |}
  | _ => o
  end.

(** Modelled from the spec: [headers[key] = value], the [OrdinarySet] of
    ECMA-262. A name that the object has, or that is found up the chain as
    a writable data property, or nowhere, is written as a property of the
    object itself. The one accessor of the builtin prototypes under a
    string name is [__proto__], whose setter replaces the prototype. *)
Definition assign (key : jsstring) (value : jsval) (o : PlainObject) : PlainObject :=
  if decide (key = js "__proto__") then
    match own o !! key with
    | Some _ => set_own key value o
    | None =>
        if reaches_proto_setter (prototype o) then set_prototype value o
        else set_own key value o
    end
  else set_own key value o.

Section Headers.

(** [String.prototype.toLowerCase], whose case tables are the platform's. *)
Variable toLowerCase : jsstring -> jsstring.

(** [name.toLowerCase()]: only a string has the method. *)
Definition call_toLowerCase (name : jsval) : exn jsstring :=
  match name with
  | JStr s => Ok (toLowerCase s)
  | _ => Throw TypeError
  end.

(** The callback [({ name, value }) => { headers[name.toLowerCase()] = value }] *)
Definition set_header (entry : jsval) (hdrs : PlainObject) : exn PlainObject :=
  name <- get_prop entry (js "name") ;;
  value <- get_prop entry (js "value") ;;
  key <- call_toLowerCase name ;;
  Ok (assign key value hdrs).

Definition getEmailHeaders (payload : option Part) : exn PlainObject :=
  match payload with
  | None => Ok ∅
  | Some part =>
      match headers part with
      | None => Ok ∅
      | Some entries => forEach set_header entries ∅
      end
  end.

End Headers.

(** ** Regular expressions *)

Module RegExp.

(** The constructs the pattern of [extractVerifyUrl] is made of.
    Repetition is over a character class, as in the source. *)
Inductive regex :=
| Eps
| Chr (c : N)
| Seq (a b : regex)
| Alt (a b : regex)
| Opt (a : regex)
| Star (cls : N -> bool)
| Plus (cls : N -> bool).

(** Canonicalisation under the [i] flag, for comparisons with an ASCII
    pattern character: the ASCII letters fold to upper case, and no code
    unit from 128 on folds to an ASCII one. *)
Definition canonicalize (c : N) : N :=
  if (97 <=? c) && (c <=? 122) then c - 32 else c.

Definition chr_eqb (c x : N) : bool := canonicalize x =? canonicalize c.

(** Greedy repetition of a class: the longest run first, then shorter
    ones as long as the continuation fails. *)
Fixpoint star (cls : N -> bool) (s : jsstring)
         (k : jsstring -> option jsstring) : option jsstring :=
  match s with
  | x :: t =>
      if cls x then
        match star cls t k with
        | Some r => Some r
        | None => k s
        end
      else k s
  | [] => k s
  end.

(** The backtracking matcher: [run r s k] matches [r] at the start of [s]
    and hands the rest to the continuation [k]; the result is what is left
    of the input after the whole match. *)
Fixpoint run (r : regex) (s : jsstring)
         (k : jsstring -> option jsstring) : option jsstring :=
  match r with
  | Eps => k s
  | Chr c =>
      match s with
      | x :: t => if chr_eqb c x then k t else None
      | [] => None
      end
  | Seq a b => run a s (fun s' => run b s' k)
  | Alt a b =>
      match run a s k with
      | Some r => Some r
      | None => run b s k
      end
  | Opt a =>
      match run a s k with
      | Some r => Some r
      | None => k s
      end
  | Star cls => star cls s k
  | Plus cls =>
      match s with
      | x :: t => if cls x then star cls t k else None
      | [] => None
      end
  end.

(** The text matched at the start of [s], if the pattern matches there. *)
Definition exec_at (r : regex) (s : jsstring) : option jsstring :=
  match run r s Some with
  | Some rest => Some (take (length s - length rest) s)
  | None => None
  end.

(** The successive matches of a [g] pattern from left to right; [skip]
    counts the code units still covered by the previous match. After an
    empty match the search moves on by one code unit. *)
Fixpoint match_all_from (r : regex) (s : jsstring) (skip : nat) : list jsstring :=
  match skip with
  | S n =>
      match s with
      | [] => []
      | _ :: t => match_all_from r t n
      end
  | O =>
      match exec_at r s with
      | Some mt =>
          mt :: match s with
                | [] => []
                | _ :: t => match_all_from r t (pred (length mt))
                end
      | None =>
          match s with
          | [] => []
          | _ :: t => match_all_from r t 0
          end
      end
  end.

(** [s.match(r)] for a pattern with the [g] flag: the array of all
    matches, or [null] ([None]) when there is none. *)
Definition String_match (s : jsstring) (r : regex) : option (list jsstring) :=
  match match_all_from r s 0 with
  | [] => None
  | l => Some l
  end.

(** A literal run of pattern characters. *)
Definition lit (s : string) : regex :=
  fold_right (fun c r => Seq (Chr c) r) Eps (js s).

(** [\s]: white space and line terminators. *)
Definition is_space (c : N) : bool :=
  ((9 <=? c) && (c <=? 13)) || (c =? 32) || (c =? 160) || (c =? 5760)
  || ((8192 <=? c) && (c <=? 8202)) || (c =? 8232) || (c =? 8233)
  || (c =? 8239) || (c =? 8287) || (c =? 12288) || (c =? 65279).

End RegExp.

(** ** [extractVerifyUrl] *)

(** The class of the pattern: anything but white space, [<], [>] and the
    double quote (code 34). *)
Definition url_char (c : N) : bool :=
  negb (RegExp.is_space c || (c =? 60) || (c =? 62) || (c =? 34)).

Definition keyword : RegExp.regex :=
  RegExp.Alt (RegExp.lit "verify")
    (RegExp.Alt (RegExp.lit "confirm") (RegExp.lit "activate")).

(** The pattern [https?:\/\/ C+ (verify|confirm|activate) C*] with the flags
    [g] and [i], where [C] is the class [url_char]. *)
Definition urlRegex : RegExp.regex :=
  RegExp.Seq (RegExp.lit "http")
    (RegExp.Seq (RegExp.Opt (RegExp.Chr 115))
       (RegExp.Seq (RegExp.lit "://")
          (RegExp.Seq (RegExp.Plus url_char)
             (RegExp.Seq keyword (RegExp.Star url_char))))).

Record Message := mkMessage {
  id : jsval;
  snippet : jsval;
  payload : option Part;
  msg_verificationStatus : jsval
}.

(** [textContent || htmlContent || ''] *)
Definition textToSearch (c : Content) : jsstring :=
  match textContent c with
  | _ :: _ => textContent c
  | [] =>
      match htmlContent c with
      | _ :: _ => htmlContent c
      | [] => []
      end
  end.

(** [None] as argument is an absent message, [None] as result is [null]. *)
Definition extractVerifyUrl (email : option Message) : exn (option jsstring) :=
  match email with
  | None => Ok None
  | Some email =>
      c <- extractEmailContent (payload email) ;;
      let matches := RegExp.String_match (textToSearch c) urlRegex in
      Ok match matches with
         | Some matches => head matches
         | None => None
         end
  end.

(** ** The WebSocket and the component state *)

Inductive ReadyState := CONNECTING | OPEN | CLOSING | CLOSED.

(** A [WebSocket] object created by [connectWebSocket]: its [readyState],
    the [email] its handlers have captured, and the frames handed to the
    network by [send] (as values, before [JSON.stringify]), oldest first. *)
Record Socket := mkSocket {
  readyState : ReadyState;
  sub_email : jsstring;
  sent : list jsval
}.

(** Calls on the WebSocket interface, in the order they are made. *)
Inductive Action :=
| ActNew (i : nat)
| ActClose (i : nat)
| ActSend (i : nat) (frame : jsval).

(** [sockets] holds every socket ever created, in creation order, and
    [ws_current] is [ws.current], an index into it ([None] is [null]). *)
Record State := mkState {
  sockets : list Socket;
  ws_current : option nat;
  verificationStatus : gmap jsstring jsval;
  emailData : jsval;
  log : list Action
}.

Definition init : State :=
  {| sockets := []; ws_current := None; verificationStatus := ∅;
     emailData := JNull; log := [] |}.

Definition set_sockets (f : list Socket -> list Socket) (st : State) : State :=
  {| sockets := f (sockets st); ws_current := ws_current st;
     verificationStatus := verificationStatus st;
     emailData := emailData st; log := log st |}.

(** [setVerificationStatus(prev => f(prev))] *)
Definition setVerificationStatus
  (f : gmap jsstring jsval -> gmap jsstring jsval) (st : State) : State :=
  {| sockets := sockets st; ws_current := ws_current st;
     verificationStatus := f (verificationStatus st);
     emailData := emailData st; log := log st |}.

Definition setEmailData (d : jsval) (st : State) : State :=
  {| sockets := sockets st; ws_current := ws_current st;
     verificationStatus := verificationStatus st;
     emailData := d; log := log st |}.

Definition add_log (a : Action) (st : State) : State :=
  {| sockets := sockets st; ws_current := ws_current st;
     verificationStatus := verificationStatus st;
     emailData := emailData st; log := log st ++ [a] |}.

Definition set_readyState (r : ReadyState) (s : Socket) : Socket :=
  {| readyState := r; sub_email := sub_email s; sent := sent s |}.

(** [socket.close()]: a socket that is connecting or open starts closing,
    one that is closing or closed stays as it is. *)
Definition ws_close (i : nat) (st : State) : State :=
  add_log (ActClose i)
    (set_sockets
       (alter (fun s => match readyState s with
                        | CONNECTING | OPEN => set_readyState CLOSING s
                        | _ => s
                        end) i) st).

(** [new WebSocket(url)]: a fresh socket, connecting. *)
Definition ws_new (email : jsstring) (st : State) : State :=
  let i := length (sockets st) in
  add_log (ActNew i)
    {| sockets := sockets st ++ [mkSocket CONNECTING email []];
       ws_current := Some i;
       verificationStatus := verificationStatus st;
       emailData := emailData st; log := log st |}.

(** [socket.send(frame)]: throws while connecting, transmits when open, and
    drops the frame when closing or closed. *)
Definition ws_send (i : nat) (frame : jsval) (st : State) : exn State :=
  match sockets st !! i with
  | None => Throw TypeError
  | Some s =>
      match readyState s with
      | CONNECTING => Throw InvalidStateError
      | OPEN =>
          Ok (add_log (ActSend i frame)
                (set_sockets
                   (alter (fun s => {| readyState := readyState s;
                                       sub_email := sub_email s;
                                       sent := sent s ++ [frame] |}) i) st))
      | _ => Ok (add_log (ActSend i frame) st)
      end
  end.

(** [connectWebSocket(email)]: the handlers it installs on the new socket
    are [onopen] and [onmessage] below, with [email] kept in [sub_email]. *)
Definition connectWebSocket (email : jsstring) (st : State) : State :=
  let st :=
    match ws_current st with
    | Some i => ws_close i st
    | None => st
    end in
  ws_new email st.

Definition subscribe_frame (email : jsstring) : jsval :=
  JObj [(js "type", JStr (js "subscribe")); (js "email", JStr email)].

(** [ws.current.onopen] of a socket whose captured address is [email]. *)
Definition onopen (email : jsstring) (st : State) : exn State :=
  match ws_current st with
  | None => Throw TypeError
  | Some j => ws_send j (subscribe_frame email) st
  end.

(** [ws.current.onmessage]. [event_data] is [event.data] as [JSON.parse]
    reads it: [Ok v] when it is the JSON text of [v], [Throw SyntaxError]
    when it is not JSON. *)
Definition onmessage (event_data : exn jsval) (st : State) : exn State :=
  data <- event_data ;;
  type <- get_prop data (js "type") ;;
  if strict_eq_str type (js "verification_update") then
    messageId <- get_prop data (js "messageId") ;;
    status <- get_prop data (js "status") ;;
    Ok (setVerificationStatus (fun prev => <[ToString messageId := status]> prev) st)
  else Ok st.

(** The body of [fetchEmailDetails] once the response has arrived, which is
    how another message gets selected: [data] is [response.data]. *)
Definition fetchEmailDetails_response (data : jsval) (st : State) : exn State :=
  id <- get_prop data (js "id") ;;
  status <- get_prop data (js "verificationStatus") ;;
  Ok (setVerificationStatus (fun prev => <[ToString id := status]> prev)
        (setEmailData data st)).

(** The cleanup of the effect, run when the component unmounts. *)
Definition unmount (st : State) : State :=
  match ws_current st with
  | Some i => ws_close i st
  | None => st
  end.

(** What reaches the component from outside. *)
Inductive input :=
| Subscribe (email : jsstring)
| NetOpen (i : nat)
| NetMessage (i : nat) (event_data : exn jsval)
| NetError (i : nat)
| NetClose (i : nat)
| Select (data : jsval)
| Unmount.

(** A handler that throws leaves the state as it was when it was called;
    the error goes to the caller of [step]. *)
Definition handled (st : State) (c : exn State) : State * option error :=
  match c with
  | Ok st' => (st', None)
  | Throw e => (st, Some e)
  end.

(** One input. The browser fires [open] on a connecting socket only,
    [message] on an open one only, and [close] once; [onerror] and
    [onclose] only write to the console. *)
Definition step (x : input) (st : State) : State * option error :=
  match x with
  | Subscribe email => (connectWebSocket email st, None)
  | NetOpen i =>
      match sockets st !! i with
      | Some s =>
          match readyState s with
          | CONNECTING =>
              let st := set_sockets (alter (set_readyState OPEN) i) st in
              handled st (onopen (sub_email s) st)
          | _ => (st, None)
          end
      | None => (st, None)
      end
  | NetMessage i event_data =>
      match sockets st !! i with
      | Some s =>
          match readyState s with
          | OPEN => handled st (onmessage event_data st)
          | _ => (st, None)
          end
      | None => (st, None)
      end
  | NetError i => (st, None)
  | NetClose i => (set_sockets (alter (set_readyState CLOSED) i) st, None)
  | Select data => handled st (fetchEmailDetails_response data st)
  | Unmount => (unmount st, None)
  end.

(** A sequence of inputs, with the errors thrown on the way. *)
Fixpoint run (xs : list input) (st : State) : State * list error :=
  match xs with
  | [] => (st, [])
  | x :: r =>
      let '(st1, e) := step x st in
      let '(st2, es) := run r st1 in
      (st2, match e with Some e => e :: es | None => es end)
  end.

Definition live (s : Socket) : bool :=
  match readyState s with
  | CONNECTING | OPEN => true
  | _ => false
  end.

Definition live_at (st : State) (i : nat) : bool :=
  match sockets st !! i with
  | Some s => live s
  | None => false
  end.

(** Indices of the sockets that are connecting or open. *)
Definition live_sockets (st : State) : list nat :=
  filter (fun i => live_at st i = true) (seq 0 (length (sockets st))).

(** * Vocabulary of the properties *)

(** The decoded text of a part's [body.data]. *)
Definition decoded (part : Part) : jsstring :=
  match decodeContent (body_data part) with
  | Ok s => s
  | Throw _ => []
  end.



(** An entry whose [name] is absent or [null]. *)
Definition lacks_name (entry : jsval) : Prop :=
  get_prop entry (js "name") = Ok JUndefined \/
  get_prop entry (js "name") = Ok JNull.

(** Lower-casing of the ASCII letters, the part of [toLowerCase] the
    examples below need. *)
Definition ascii_toLowerCase (s : jsstring) : jsstring :=
  map (fun c => if (65 <=? c) && (c <=? 90) then c + 32 else c) s.

(** A payload whose second header is [{ value: "x" }]. *)
Definition payload_nameless_header : Part :=
  {| mimeType := js "text/plain";
     body := None;
     parts := None;
     headers := Some [JObj [(js "name", JStr (js "Subject")); (js "value", JStr (js "Hi"))];
                      JObj [(js "value", JStr (js "x"))]] |}.

Inductive kind := Plain | Html.

(** Which of the first two branches of [findParts] a part takes. *)
Definition node_kind (part : Part) : option kind :=
  if is_mime "text/plain" part && truthy (body_data part) then Some Plain
  else if is_mime "text/html" part && truthy (body_data part) then Some Html
  else None.

Definition has_kind (k : kind) (part : Part) : bool :=
  match node_kind part, k with
  | Some Plain, Plain | Some Html, Html => true
  | _, _ => false
  end.

(** What [findParts] does at a part itself, the recursion left out. *)
Definition visit (part : Part) (v : Vars) : exn Vars :=
  match node_kind part with
  | Some Plain =>
      t <- decodeContent (body_data part) ;; Ok {| text := t; html := html v |}
  | Some Html =>
      h <- decodeContent (body_data part) ;; Ok {| text := text v; html := h |}
  | None => Ok v
  end.

(** The parts [findParts] is called on, in the order of the calls: the part
    itself, then, unless it took one of the first two branches, its
    children from left to right, each with what lies below it. *)
Fixpoint visited (part : Part) : list Part :=
  part :: match node_kind part with
          | Some _ => []
          | None =>
              match parts part with
              | Some l => flat_map visited l
              | None => []
              end
          end.

(** All parts of a tree, depth first, children in order. *)
Fixpoint preorder (part : Part) : list Part :=
  part :: match parts part with
          | Some l => flat_map preorder l
          | None => []
          end.

Definition is_leaf (part : Part) : bool :=
  match parts part with
  | Some (_ :: _) => false
  | _ => true
  end.

Definition leaves (part : Part) : list Part :=
  List.filter is_leaf (preorder part).

(** The invariant of the data model: a part with children carries no usable
    [body.data] of its own. *)
Definition well_formed (part : Part) : Prop :=
  Forall (fun q => is_leaf q = false -> node_kind q = None) (preorder part).

(** The decoded content of the last part of kind [k] in a list of parts,
    the empty string when there is none. *)
Definition last_decoded (k : kind) (l : list Part) : jsstring :=
  match last (List.filter (has_kind k) l) with
  | Some q => decoded q
  | None => []
  end.

Section PartInduction.

Variable P : Part -> Prop.
Hypothesis Hnode :
  forall m b ps h,
    match ps with Some l => Forall P l | None => True end ->
    P (mkPart m b ps h).

(** Induction over a tree of parts, with the hypothesis for all children. *)
Fixpoint Part_ind_nested (part : Part) : P part :=
  match part with
  | mkPart m b ps h =>
      Hnode m b ps h
        match ps with
        | Some l =>
            (fix go (l : list Part) : Forall P l :=
               match l with
               | [] => @List.Forall_nil Part P
               | c :: r => @List.Forall_cons Part P c r (Part_ind_nested c) (go r)
               end) l
        | None => I
        end
  end.

End PartInduction.

(** The value of a variable after the visits of [l]: the content of the
    last part of its kind, or what it held before. *)
Definition after_visits (k : kind) (l : list Part) (before : jsstring) : jsstring :=
  match last (List.filter (has_kind k) l) with
  | Some q => decoded q
  | None => before
  end.

(** Two parts used in the examples: a leaf with content and a container. *)
Definition leaf (m : string) (d : string) : Part :=
  {| mimeType := js m; body := Some {| data := Some (js d) |};
     parts := None; headers := None |}.

Definition container (m : string) (l : list Part) : Part :=
  {| mimeType := js m; body := None; parts := Some l; headers := None |}.

(** Two plain-text leaves, ["QQ=="] decoding to ["A"] and ["Qg=="] to ["B"]. *)
Definition two_plain_leaves : Part :=
  container "multipart/alternative"
    [leaf "text/plain" "QQ=="; leaf "text/plain" "Qg=="].

(** A [text/plain] part with content of its own (["QQ=="], ["A"]) and a
    [text/html] child (["Qg=="], ["B"]). *)
Definition mixed_part : Part :=
  {| mimeType := js "text/plain";
     body := Some {| data := Some (js "QQ==") |};
     parts := Some [leaf "text/html" "Qg=="];
     headers := None |}.

(** Equality of two strings under the [i] flag. *)
Definition ci_eq (a b : jsstring) : Prop :=
  map RegExp.canonicalize a = map RegExp.canonicalize b.

Definition is_scheme (w : jsstring) : Prop :=
  ci_eq w (js "http") \/ ci_eq w (js "https").

Definition is_keyword (w : jsstring) : Prop :=
  ci_eq w (js "verify") \/ ci_eq w (js "confirm") \/ ci_eq w (js "activate").

(** A keyword somewhere in [chars], with at least one character before it. *)
Definition keyword_inside (chars : jsstring) : Prop :=
  exists pre kw post, chars = pre ++ kw ++ post /\ pre <> [] /\ is_keyword kw.

(** The text does not go on with a character of the class. *)
Definition starts_outside (rest : jsstring) : Prop :=
  match rest with
  | [] => True
  | c :: _ => url_char c = false
  end.

(** [url_at s u]: [u] is a URL at the very start of [s], that is a scheme,
    [://] and a maximal run of class characters that holds a keyword after
    at least one character. *)
Definition url_at (s u : jsstring) : Prop :=
  exists scheme chars rest,
    s = scheme ++ js "://" ++ chars ++ rest /\
    u = scheme ++ js "://" ++ chars /\
    is_scheme scheme /\
    Forall (fun c => url_char c = true) chars /\
    starts_outside rest /\
    keyword_inside chars.

(** A candidate link in the words of the specification: the keyword may
    stand anywhere in the run, also right at its start. *)
Definition spec_keyword_inside (chars : jsstring) : Prop :=
  exists pre kw post, chars = pre ++ kw ++ post /\ is_keyword kw.

Definition spec_url_at (s u : jsstring) : Prop :=
  exists scheme chars rest,
    s = scheme ++ js "://" ++ chars ++ rest /\
    u = scheme ++ js "://" ++ chars /\
    is_scheme scheme /\
    Forall (fun c => url_char c = true) chars /\
    starts_outside rest /\
    spec_keyword_inside chars.

(** Removal of a literal prefix, compared under the [i] flag. *)
Fixpoint strip_ci (w s : jsstring) : option jsstring :=
  match w with
  | [] => Some s
  | c :: w' =>
      match s with
      | x :: t => if RegExp.chr_eqb c x then strip_ci w' t else None
      | [] => None
      end
  end.

(** The rest of [s] after its longest prefix in the class. *)
Fixpoint skip (cls : N -> bool) (s : jsstring) : jsstring :=
  match s with
  | x :: t => if cls x then skip cls t else s
  | [] => []
  end.

(** The longest prefix of [s] in the class. *)
Fixpoint prefix_run (cls : N -> bool) (s : jsstring) : jsstring :=
  match s with
  | x :: t => if cls x then x :: prefix_run cls t else []
  | [] => []
  end.

Definition strip_keyword (s : jsstring) : option jsstring :=
  match strip_ci (js "verify") s with
  | Some r => Some r
  | None =>
      match strip_ci (js "confirm") s with
      | Some r => Some r
      | None => strip_ci (js "activate") s
      end
  end.

Definition strip_scheme (s : jsstring) : option jsstring :=
  match strip_ci (js "http") s with
  | Some (x :: t) =>
      if RegExp.chr_eqb 115 x then strip_ci (js "://") t
      else strip_ci (js "://") (x :: t)
  | _ => None
  end.

(** The pattern after the scheme and [://]. *)
Definition url_tail : RegExp.regex :=
  RegExp.Seq (RegExp.Plus url_char) (RegExp.Seq keyword (RegExp.Star url_char)).

Ltac decide_comparisons :=
  repeat match goal with
         | |- context [N.eqb ?a ?b] => destruct (N.eqb_spec a b); try lia
         | |- context [N.leb ?a ?b] => destruct (N.leb_spec a b); try lia
         end.

(** The match at the left-most position where the pattern matches. *)
Fixpoint leftmost (r : RegExp.regex) (s : jsstring) : option jsstring :=
  match RegExp.exec_at r s with
  | Some u => Some u
  | None =>
      match s with
      | [] => None
      | _ :: t => leftmost r t
      end
  end.

(** [res] is the URL at the left-most position of [t] that has one, or
    [None] when no position has one. *)
Definition leftmost_url (t : jsstring) (res : option jsstring) : Prop :=
  match res with
  | Some u =>
      exists pre post,
        t = pre ++ post /\ url_at post u /\
        forall pre' post' u',
          t = pre' ++ post' -> (length pre' < length pre)%nat ->
          ~ url_at post' u'
  | None => forall pre post u, t = pre ++ post -> ~ url_at post u
  end.

(** A message whose payload is one [text/plain] leaf with the given
    [body.data]. *)
Definition plain_message (d : string) : Message :=
  {| id := JStr (js "m1"); snippet := JStr []; payload := Some (leaf "text/plain" d);
     msg_verificationStatus := JNull |}.

(** No socket but [ws.current] is connecting or open. *)
Definition single_live (st : State) : Prop :=
  forall i, live_at st i = true -> ws_current st = Some i.

Definition is_subscribe (x : input) : bool :=
  match x with
  | Subscribe _ => true
  | _ => false
  end.

Definition closing_or_closed (s : Socket) : Prop :=
  readyState s = CLOSING \/ readyState s = CLOSED.

(** What a step other than a subscription leaves alone: [ws.current], the
    number of sockets and the address of each; and it wakes no socket. *)
Definition quiet (st st' : State) : Prop :=
  ws_current st' = ws_current st /\
  length (sockets st') = length (sockets st) /\
  (forall j, live_at st' j = true -> live_at st j = true) /\
  (forall j s, sockets st !! j = Some s ->
     exists s', sockets st' !! j = Some s' /\ sub_email s' = sub_email s).

(** [data] is a verification-status update for the message [m]. *)
Definition is_update (data : jsval) (m : jsstring) (status : jsval) : Prop :=
  get_prop data (js "type") = Ok (JStr (js "verification_update")) /\
  get_prop data (js "messageId") = Ok (JStr m) /\
  get_prop data (js "status") = Ok status.

(** The event [{ type: 'verification_update', messageId, status }]. *)
Definition update_event (messageId : jsstring) (status : jsval) : jsval :=
  JObj [(js "type", JStr (js "verification_update"));
        (js "messageId", JStr messageId);
        (js "status", status)].

Definition upsert (vs : gmap jsstring jsval) (e : jsstring * jsval)
  : gmap jsstring jsval :=
  <[e.1 := e.2]> vs.

(** A socket that has been opened for [a@x.com]. *)
Definition open_state : State :=
  fst (run [Subscribe (js "a@x.com"); NetOpen 0%nat] init).

(** * Vocabulary of the further properties *)

(** ** Header lists *)

(** An entry whose [name] is a string. *)
Definition has_string_name (entry : jsval) : Prop :=
  exists s, get_prop entry (js "name") = Ok (JStr s).

(** The name of [entry], lower-cased, is [k]. *)
Definition header_named (toLowerCase : jsstring -> jsstring) (k : jsstring)
  (entry : jsval) : Prop :=
  exists s, get_prop entry (js "name") = Ok (JStr s) /\ toLowerCase s = k.

(** The headers of the spec's example: [Subject: Hi], then [subject: Bye]. *)
Definition payload_two_subjects : Part :=
  {| mimeType := js "text/plain";
     body := None;
     parts := None;
     headers := Some [JObj [(js "name", JStr (js "Subject")); (js "value", JStr (js "Hi"))];
                      JObj [(js "name", JStr (js "subject")); (js "value", JStr (js "Bye"))]] |}.

(** Two entries named [__proto__], the first with the value [null]. *)
Definition payload_two_protos : Part :=
  {| mimeType := js "text/plain";
     body := None;
     parts := None;
     headers := Some [JObj [(js "name", JStr (js "__proto__")); (js "value", JNull)];
                      JObj [(js "name", JStr (js "__proto__")); (js "value", JStr (js "x"))]] |}.

(** ** Parts without content *)

(** No part that [findParts] visits in the tree of [part] fills a variable:
    an attachment, an empty leaf, a container of such. *)
Definition inert (part : Part) : Prop :=
  Forall (fun q => node_kind q = None) (visited part).

(** Among the parts visited in the tree of [part] none is of kind [k]. *)
Definition without_kind (k : kind) (part : Part) : Prop :=
  List.filter (has_kind k) (visited part) = [].


(** ** The sockets over time *)

(** What has been sent on a socket: nothing while it connects, and later
    nothing or the one subscription for the address it was made for. *)
Definition frames_ok (s : Socket) : Prop :=
  (readyState s = CONNECTING -> sent s = []) /\
  (sent s = [] \/
   sent s = [JObj [(js "type", JStr (js "subscribe")); (js "email", JStr (sub_email s))]]).

(** No socket is connecting or open. *)
Definition all_dead (st : State) : Prop :=
  forall i, live_at st i = false.

(** An input that comes from the network. *)
Definition is_network (x : input) : bool :=
  match x with
  | NetOpen _ | NetMessage _ _ | NetError _ | NetClose _ => true
  | _ => false
  end.

(** An input that is neither an inbound message nor a selection. *)
Definition is_connection_input (x : input) : bool :=
  match x with
  | NetMessage _ _ | Select _ => false
  | _ => true
  end.

(** ** base64url text *)

Module Base64url.

(** The character of the base64url alphabet for a 6-bit value. *)
Definition char (v : N) : N :=
  if v <? 26 then 65 + v
  else if v <? 52 then 97 + (v - 26)
  else if v <? 62 then 48 + (v - 52)
  else if v =? 62 then 45
  else 95.

(** The 6-bit groups of a byte string, the last one filled up with zero
    bits. *)
Fixpoint groups (bs : list N) : list N :=
  match bs with
  | a :: b :: c :: rest =>
      (a / 4) :: ((a mod 4) * 16 + b / 16) :: ((b mod 16) * 4 + c / 64)
      :: (c mod 64) :: groups rest
  | [a; b] => [a / 4; (a mod 4) * 16 + b / 16; (b mod 16) * 4]
  | [a] => [a / 4; (a mod 4) * 16]
  | [] => []
  end.

(** The [=] signs that fill the text up to a multiple of four. *)
Fixpoint padding (bs : list N) : jsstring :=
  match bs with
  | _ :: _ :: _ :: rest => padding rest
  | [_; _] => [61]
  | [_] => [61; 61]
  | [] => []
  end.

(** The base64url text of a byte string, with or without padding. *)
Definition encode (padded : bool) (bs : list N) : jsstring :=
  map char (groups bs) ++ (if padded then padding bs else []).

End Base64url.

(** The two substitutions of [decodeContent] on one character. *)
Definition to_standard (c : N) : N :=
  if (if c =? 45 then 43 else c) =? 95 then 47 else if c =? 45 then 43 else c.

(** Text that quoted-printable decoding leaves alone: no TAB or SPACE right
    before a line terminator or the end. *)
Fixpoint no_trailing_blank (s : jsstring) : bool :=
  match s with
  | [] => true
  | c :: t =>
      negb (((c =? 9) || (c =? 32)) &&
            match t with
            | [] => true
            | d :: _ => QuotedPrintable.is_line_terminator d
            end)
      && no_trailing_blank t
  end.

(** ... and no [=]. *)
Definition qp_plain (s : jsstring) : Prop :=
  Forall (fun c => c <> 61) s /\ no_trailing_blank s = true.

(** Proof steps on [N] with division by a constant. *)
Ltac div_lia := zify; Z.to_euclidean_division_equations; lia.

(** * The requests of the component

    [fetchLatestEmails], [fetchEmailDetails] and [handleVerifyClick] are
    [async] functions with one [await] each. Each is embedded as two
    transitions: the part up to the request, and the part that runs when
    the request has settled, which takes the outcome as an argument ([Ok]
    with [response.data] when it resolved, [Throw] when it rejected). *)

(** [String.prototype.trim]: white space and line terminators go at both
    ends. *)
Definition trim (s : jsstring) : jsstring :=
  rev (skip RegExp.is_space (rev (skip RegExp.is_space s))).

(** Truthiness of a value. *)
Definition truthy_val (v : jsval) : bool :=
  match v with
  | JUndefined | JNull => false
  | JBool b => b
  | JNum n => negb (n =? 0)%Z
  | JStr [] => false
  | JStr (_ :: _) => true
  | JArr _ | JObj _ => true
  end.

(** A request to the backend: the route and what is sent. [GetEmail] holds
    the id as the template literal of the URL renders it. *)
Inductive Request :=
| PostFetchLatest (email : jsstring)
| GetEmail (messageId : jsstring)
| PostTriggerVerify (url : jsstring) (email : jsstring) (messageId : jsval).

(** The state of [EmailViewer]: [core] has [ws], [verificationStatus] and
    [emailData]; [requests] and [alerts] record the requests made and the
    alerts shown, oldest first. [error_text] is the state [error]. *)
Record Component := mkComponent {
  core : State;
  gmailId : jsstring;
  latestEmails : list jsval;
  loading : bool;
  error_text : jsstring;
  requests : list Request;
  alerts : list jsstring
}.

Definition mounted : Component :=
  {| core := init; gmailId := []; latestEmails := []; loading := false;
     error_text := []; requests := []; alerts := [] |}.

Definition set_core (f : State -> State) (c : Component) : Component :=
  {| core := f (core c); gmailId := gmailId c; latestEmails := latestEmails c;
     loading := loading c; error_text := error_text c; requests := requests c;
     alerts := alerts c |}.

Definition setGmailId (g : jsstring) (c : Component) : Component :=
  {| core := core c; gmailId := g; latestEmails := latestEmails c;
     loading := loading c; error_text := error_text c; requests := requests c;
     alerts := alerts c |}.

Definition setLatestEmails (l : list jsval) (c : Component) : Component :=
  {| core := core c; gmailId := gmailId c; latestEmails := l;
     loading := loading c; error_text := error_text c; requests := requests c;
     alerts := alerts c |}.

Definition setLoading (b : bool) (c : Component) : Component :=
  {| core := core c; gmailId := gmailId c; latestEmails := latestEmails c;
     loading := b; error_text := error_text c; requests := requests c;
     alerts := alerts c |}.

Definition setError (e : jsstring) (c : Component) : Component :=
  {| core := core c; gmailId := gmailId c; latestEmails := latestEmails c;
     loading := loading c; error_text := e; requests := requests c;
     alerts := alerts c |}.

Definition request (r : Request) (c : Component) : Component :=
  {| core := core c; gmailId := gmailId c; latestEmails := latestEmails c;
     loading := loading c; error_text := error_text c; requests := requests c ++ [r];
     alerts := alerts c |}.

Definition alert (msg : jsstring) (c : Component) : Component :=
  {| core := core c; gmailId := gmailId c; latestEmails := latestEmails c;
     loading := loading c; error_text := error_text c; requests := requests c;
     alerts := alerts c ++ [msg] |}.

(** [fetchLatestEmails] up to its [await]. *)
Definition fetchLatestEmails (c : Component) : Component :=
  match trim (gmailId c) with
  | [] => alert (js "Please enter a valid Gmail ID") c
  | _ :: _ =>
      request (PostFetchLatest (trim (gmailId c)))
        (set_core (setEmailData JNull)
           (setLatestEmails [] (setError [] (setLoading true c))))
  end.

(** The reads of the [if (response.data)] branch. *)
Definition latest_fields (data : jsval) : exn (jsval * jsval * jsval) :=
  id <- get_prop data (js "id") ;;
  snippet <- get_prop data (js "snippet") ;;
  status <- get_prop data (js "verificationStatus") ;;
  Ok (id, snippet, status).

(** [fetchLatestEmails] from its [await] on. [gmailId_then] is the
    [gmailId] of the call, which the closure has kept. The [Throw] cases
    are the [catch] block, and [setLoading(false)] is the [finally] block. *)
Definition fetchLatestEmails_settled (gmailId_then : jsstring)
  (response : exn jsval) (c : Component) : Component :=
  setLoading false
    match response with
    | Ok data =>
        if truthy_val data then
          match latest_fields data with
          | Ok (id, snippet, status) =>
              set_core
                (fun st =>
                   connectWebSocket (trim gmailId_then)
                     (setVerificationStatus
                        (fun prev => <[ToString id := status]> prev)
                        (setEmailData data st)))
                (setLatestEmails
                   [JObj [(js "id", id); (js "snippet", snippet)]] c)
          | Throw _ => setError (js "Failed to fetch latest emails") c
          end
        else setError (js "No emails found for this Gmail ID") c
    | Throw _ => setError (js "Failed to fetch latest emails") c
    end.



(** [handleVerifyClick(url)] up to its [await]. *)
Definition handleVerifyClick (url : jsstring) (c : Component) : Component :=
  if truthy_val (emailData (core c)) then
    match get_prop (emailData (core c)) (js "id") with
    | Ok id => request (PostTriggerVerify url (trim (gmailId c)) id) c
    | Throw _ => setError (js "Failed to trigger verification") c
    end
  else c.

(** [handleVerifyClick] from its [await] on. *)
Definition handleVerifyClick_settled (response : exn jsval) (c : Component)
  : Component :=
  match response with
  | Ok _ => c
  | Throw _ => setError (js "Failed to trigger verification") c
  end.



(** Nothing but white space. *)
Definition blank (s : jsstring) : Prop :=
  Forall (fun x => RegExp.is_space x = true) s.

(** [s] has no white space at its first position. *)
Definition starts_black (s : jsstring) : Prop :=
  match s with
  | [] => True
  | x :: _ => RegExp.is_space x = false
  end.

(** * Properties *)

(** ** The error monad *)

Lemma exn_bind_Ok {A B} (c : exn A) (k : A -> exn B) (b : B) :
  exn_bind c k = Ok b -> exists a, c = Ok a /\ k a = Ok b.
Proof. destruct c as [a|e]; simpl; [eauto | discriminate]. Qed.

Lemma forEach_app {A S} (f : A -> S -> exn S) (l1 l2 : list A) (s : S) :
  forEach f (l1 ++ l2) s = (s' <- forEach f l1 s ;; forEach f l2 s').
Proof.
  revert s. induction l1 as [|x l1 IH]; intros s; simpl; [reflexivity|].
  destruct (f x s) as [s1|e]; simpl; [apply IH | reflexivity].
Qed.

(** ** [decodeContent] *)

Section DecodeContentFacts.

Variable atob_fn : jsstring -> exn jsstring.
Variable qp_decode_fn : jsstring -> exn jsstring.

Lemma decodeContent_with_total (encoded : option jsstring) :
  exists s, decodeContent_with atob_fn qp_decode_fn encoded = Ok s.
Proof.
  destruct encoded as [[|c t]|]; simpl; eauto.
  destruct (atob_fn _) as [d|e]; simpl; eauto.
  destruct (qp_decode_fn d) as [r|e]; simpl; eauto.
Qed.

Lemma decodeContent_with_fallback (s : jsstring) :
  raises (atob_fn (replace_char 95 47 (replace_char 45 43 s))) \/
  (exists d, atob_fn (replace_char 95 47 (replace_char 45 43 s)) = Ok d /\
             raises (qp_decode_fn d)) ->
  decodeContent_with atob_fn qp_decode_fn (Some s) = Ok s.
Proof.
  intros H. destruct s as [|c t]; [reflexivity|].
  unfold decodeContent_with.
  destruct H as [[e He] | (d & Hd & e & He)].
  - rewrite He. reflexivity.
  - rewrite Hd. simpl. rewrite He. reflexivity.
Qed.

End DecodeContentFacts.

Lemma decodeContent_total (encoded : option jsstring) :
  exists s, decodeContent encoded = Ok s.
Proof. apply decodeContent_with_total. Qed.

Lemma decodeContent_decoded (part : Part) :
  decodeContent (body_data part) = Ok (decoded part).
Proof.
  unfold decoded. destruct (decodeContent_total (body_data part)) as [s ->].
  reflexivity.
Qed.

(** C3: [decodeContent] never throws, whatever the two library calls do:
    an absent or empty input gives the empty string, and when the base64
    stage or the quoted-printable stage throws, the input comes back as it
    was. *)
Theorem decodeContent_never_raises
  (atob_fn qp_decode_fn : jsstring -> exn jsstring) (encoded : option jsstring) :
  (exists s, decodeContent_with atob_fn qp_decode_fn encoded = Ok s) /\
  (encoded = None \/ encoded = Some [] ->
   decodeContent_with atob_fn qp_decode_fn encoded = Ok []) /\
  (forall s, encoded = Some s ->
     raises (atob_fn (replace_char 95 47 (replace_char 45 43 s))) \/
     (exists d, atob_fn (replace_char 95 47 (replace_char 45 43 s)) = Ok d /\
                raises (qp_decode_fn d)) ->
     decodeContent_with atob_fn qp_decode_fn encoded = Ok s).
Proof.
  split; [apply decodeContent_with_total|]. split.
  - intros [-> | ->]; reflexivity.
  - intros s -> H. apply decodeContent_with_fallback, H.
Qed.

(** The fallback at work: ["hello"] has five characters, so [atob] throws
    and [decodeContent] gives ["hello"] back. *)
Lemma decodeContent_never_raises_witness :
  raises (atob (replace_char 95 47 (replace_char 45 43 (js "hello")))) /\
  decodeContent (Some (js "hello")) = Ok (js "hello").
Proof.
  assert (H : raises (atob (replace_char 95 47 (replace_char 45 43 (js "hello"))))).
  { exists InvalidCharacterError. vm_compute. reflexivity. }
  split; [exact H|].
  exact (proj2 (proj2 (decodeContent_never_raises atob quotedPrintable_decode
                         (Some (js "hello")))) (js "hello") eq_refl (or_introl H)).
Defined.

(** ** Text that is not transport-encoded *)







Lemma filter_all {A} (P : A -> Prop) `{!forall x, Decision (P x)} (l : list A) :
  Forall P l -> filter P l = l.
Proof.
  induction 1 as [|x l Hx _ IH]; [reflexivity|].
  rewrite filter_cons_True by exact Hx. rewrite IH. reflexivity.
Qed.

Lemma sextet_not_whitespace (c : N) :
  Base64.sextet c <> None -> Base64.is_ascii_whitespace c = false.
Proof.
  unfold Base64.sextet, Base64.is_ascii_whitespace. intros H.
  destruct (N.eqb_spec c 9) as [->|]; [exfalso; apply H; reflexivity|].
  destruct (N.eqb_spec c 10) as [->|]; [exfalso; apply H; reflexivity|].
  destruct (N.eqb_spec c 12) as [->|]; [exfalso; apply H; reflexivity|].
  destruct (N.eqb_spec c 13) as [->|]; [exfalso; apply H; reflexivity|].
  destruct (N.eqb_spec c 32) as [->|]; [exfalso; apply H; reflexivity|].
  reflexivity.
Qed.






(** ** [getEmailHeaders] *)

Section HeadersFacts.

Variable toLowerCase : jsstring -> jsstring.

Lemma set_header_TypeError (entry : jsval) (hdrs : PlainObject) (e : error) :
  set_header toLowerCase entry hdrs = Throw e -> e = TypeError.
Proof.
  unfold set_header, get_prop.
  destruct entry; simpl; try congruence;
    match goal with
    | |- context [call_toLowerCase _ ?v] => destruct v; simpl; congruence
    end.
Qed.

Lemma set_header_lacks_name (entry : jsval) (hdrs : PlainObject) :
  lacks_name entry -> set_header toLowerCase entry hdrs = Throw TypeError.
Proof.
  unfold set_header. intros [H|H]; rewrite H; simpl;
    destruct (get_prop entry (js "value")) as [v|e] eqn:E; simpl;
    try reflexivity.
  all: destruct entry; simpl in *; congruence.
Qed.

Lemma forEach_set_header_throws (entries : list jsval) (entry : jsval)
      (hdrs : PlainObject) :
  In entry entries -> lacks_name entry ->
  forEach (set_header toLowerCase) entries hdrs = Throw TypeError.
Proof.
  intros Hin Hbad. revert hdrs.
  induction entries as [|x r IH]; intros hdrs; [destruct Hin|].
  simpl. destruct Hin as [->|Hin].
  - rewrite set_header_lacks_name by exact Hbad. reflexivity.
  - destruct (set_header toLowerCase x hdrs) as [h|e] eqn:E; simpl.
    + apply IH, Hin.
    + rewrite (set_header_TypeError _ _ _ E). reflexivity.
Qed.

End HeadersFacts.

(** C10: [getEmailHeaders] is not total. It gives the empty mapping for an
    absent payload and for an absent header list, and it throws a
    [TypeError] as soon as one entry of a present header list has no [name]
    (absent or [null]), because [name.toLowerCase()] fails. *)
Theorem getEmailHeaders_throws_without_name (toLowerCase : jsstring -> jsstring) :
  getEmailHeaders toLowerCase None = Ok ∅ /\
  (forall part, headers part = None ->
     getEmailHeaders toLowerCase (Some part) = Ok ∅) /\
  (forall part entries entry,
     headers part = Some entries -> In entry entries -> lacks_name entry ->
     getEmailHeaders toLowerCase (Some part) = Throw TypeError).
Proof.
  split; [reflexivity|]. split.
  - intros part H. simpl. rewrite H. reflexivity.
  - intros part entries entry H Hin Hbad. simpl. rewrite H.
    apply forEach_set_header_throws with entry; assumption.
Qed.

Lemma getEmailHeaders_throws_without_name_witness :
  getEmailHeaders ascii_toLowerCase (Some payload_nameless_header) = Throw TypeError.
Proof.
  apply (proj2 (proj2 (getEmailHeaders_throws_without_name ascii_toLowerCase))
           payload_nameless_header _ (JObj [(js "value", JStr (js "x"))]) eq_refl).
  - right. left. reflexivity.
  - left. reflexivity.
Defined.

(** ** The traversal of [findParts] *)

Lemma exn_bind_ret {A} (c : exn A) : exn_bind c Ok = c.
Proof. destruct c; reflexivity. Qed.

Lemma findParts_eq (part : Part) (v : Vars) :
  findParts part v =
  match node_kind part with
  | Some _ => visit part v
  | None =>
      match parts part with
      | Some (c :: r) => forEach findParts (c :: r) v
      | _ => Ok v
      end
  end.
Proof.
  destruct part as [m b ps h]. unfold visit, node_kind. simpl.
  destruct (is_mime "text/plain" _ && _); [reflexivity|].
  destruct (is_mime "text/html" _ && _); reflexivity.
Qed.

Lemma visit_no_kind (part : Part) (v : Vars) :
  node_kind part = None -> visit part v = Ok v.
Proof. unfold visit. intros ->. reflexivity. Qed.

Lemma forEach_findParts_visited (l : list Part) :
  Forall (fun c => forall v, findParts c v = forEach visit (visited c) v) l ->
  forall v, forEach findParts l v = forEach visit (flat_map visited l) v.
Proof.
  induction 1 as [|c r Hc _ IH]; intros v; [reflexivity|].
  simpl. rewrite forEach_app, Hc.
  destruct (forEach visit (visited c) v); simpl; [apply IH | reflexivity].
Qed.

Lemma findParts_visited (part : Part) :
  forall v, findParts part v = forEach visit (visited part) v.
Proof.
  induction part as [m b ps h IH] using Part_ind_nested. intros v.
  rewrite findParts_eq.
  set (p := mkPart m b ps h) in *.
  change (visited p) with
    (p :: match node_kind p with
          | Some _ => []
          | None => match ps with Some l => flat_map visited l | None => [] end
          end).
  destruct (node_kind p) as [k|] eqn:K.
  - simpl. rewrite exn_bind_ret. reflexivity.
  - simpl. rewrite (visit_no_kind p v K). simpl.
    destruct ps as [[|c r]|]; try reflexivity.
    exact (forEach_findParts_visited (c :: r) IH v).
Qed.

Lemma after_visits_cons (k : kind) (x : Part) (l : list Part) (d : jsstring) :
  after_visits k (x :: l) d =
  after_visits k l (if has_kind k x then decoded x else d).
Proof.
  unfold after_visits. simpl. destruct (has_kind k x); [|reflexivity].
  destruct (List.filter (has_kind k) l) as [|y r] eqn:E; [reflexivity|].
  change (last (x :: y :: r)) with (last (y :: r)).
  destruct (last (y :: r)) eqn:L; [reflexivity|].
  destruct r; simpl in L; [discriminate|].
  exfalso. revert L. generalize p. clear. induction r as [|z r IH]; intros q.
  - discriminate.
  - intros H. apply (IH z). exact H.
Qed.

Lemma forEach_visit (l : list Part) (v : Vars) :
  forEach visit l v =
  Ok {| text := after_visits Plain l (text v);
        html := after_visits Html l (html v) |}.
Proof.
  revert v. induction l as [|x l IH]; intros [t h]; [reflexivity|].
  rewrite !after_visits_cons. simpl. unfold visit, has_kind.
  destruct (node_kind x) as [[|]|]; simpl;
    rewrite ?decodeContent_decoded; simpl; rewrite IH; reflexivity.
Qed.

Lemma findParts_total (part : Part) (v : Vars) :
  exists v', findParts part v = Ok v'.
Proof. rewrite findParts_visited, forEach_visit. eauto. Qed.

Lemma extractEmailContent_visited (part : Part) :
  extractEmailContent (Some part) =
  Ok {| textContent := last_decoded Plain (visited part);
        htmlContent := last_decoded Html (visited part) |}.
Proof.
  unfold extractEmailContent. rewrite findParts_visited, forEach_visit.
  reflexivity.
Qed.

Lemma filter_flat_map {A B} (f : B -> bool) (g : A -> list B) (l : list A) :
  List.filter f (flat_map g l) = flat_map (fun x => List.filter f (g x)) l.
Proof.
  induction l as [|x l IH]; [reflexivity|].
  simpl. rewrite List.filter_app, IH. reflexivity.
Qed.

Lemma flat_map_ext_Forall {A B} (f g : A -> list B) (l : list A) :
  Forall (fun x => f x = g x) l -> flat_map f l = flat_map g l.
Proof.
  induction 1 as [|x l Hx _ IH]; [reflexivity|].
  simpl. rewrite Hx, IH. reflexivity.
Qed.

Lemma Forall_flat_map_elim {A B} (P : B -> Prop) (g : A -> list B) (l : list A) :
  Forall P (flat_map g l) -> Forall (fun x => Forall P (g x)) l.
Proof.
  induction l as [|x l IH]; intros H; [constructor|].
  simpl in H. apply Forall_app in H as [H1 H2].
  constructor; [exact H1 | apply IH, H2].
Qed.

Lemma well_formed_children (m : jsstring) (b : option Body) (l : list Part)
      (h : option (list jsval)) :
  well_formed (mkPart m b (Some l) h) -> Forall well_formed l.
Proof.
  unfold well_formed. simpl. intros H.
  apply Forall_cons in H as [_ H].
  apply Forall_flat_map_elim in H. exact H.
Qed.

(** On a well-formed tree the parts that fill a variable are leaves, and
    they are visited in depth-first order. *)
Lemma visited_leaves (k : kind) (part : Part) :
  well_formed part ->
  List.filter (has_kind k) (visited part) = List.filter (has_kind k) (leaves part).
Proof.
  induction part as [m b ps h IH] using Part_ind_nested. intros Hwf.
  set (p := mkPart m b ps h) in *.
  assert (Hp : is_leaf p = false -> node_kind p = None).
  { unfold well_formed in Hwf. simpl in Hwf.
    apply Forall_cons in Hwf as [Hp _]. exact Hp. }
  unfold leaves.
  change (preorder p) with
    (p :: match ps with Some l => flat_map preorder l | None => [] end).
  change (visited p) with
    (p :: match node_kind p with
          | Some _ => []
          | None => match ps with Some l => flat_map visited l | None => [] end
          end).
  destruct ps as [[|c r]|].
  - simpl. destruct (node_kind p); reflexivity.
  - assert (Hk : node_kind p = None) by (apply Hp; reflexivity).
    rewrite Hk.
    change (List.filter is_leaf (p :: flat_map preorder (c :: r)))
      with (List.filter is_leaf (flat_map preorder (c :: r))).
    assert (Hkp : has_kind k p = false) by (unfold has_kind; rewrite Hk; reflexivity).
    change (List.filter (has_kind k) (p :: flat_map visited (c :: r)))
      with (if has_kind k p then p :: List.filter (has_kind k) (flat_map visited (c :: r))
            else List.filter (has_kind k) (flat_map visited (c :: r))).
    rewrite Hkp. rewrite !filter_flat_map.
    apply well_formed_children in Hwf.
    apply flat_map_ext_Forall.
    apply Forall_forall. intros x Hx.
    rewrite Forall_forall in IH, Hwf.
    rewrite (IH x Hx (Hwf x Hx)). reflexivity.
  - simpl. destruct (node_kind p); reflexivity.
Qed.

(** C1, as the spec has it, fails: with two plain-text leaves decoding to
    ["A"] and then ["B"], [extractEmailContent] gives ["B"], the second
    assignment to [text] replacing the first. *)
Lemma extractEmailContent_not_first_wins :
  leaves two_plain_leaves = [leaf "text/plain" "QQ=="; leaf "text/plain" "Qg=="] /\
  decoded (leaf "text/plain" "QQ==") = js "A" /\
  decoded (leaf "text/plain" "Qg==") = js "B" /\
  extractEmailContent (Some two_plain_leaves) =
    Ok {| textContent := js "B"; htmlContent := [] |} /\
  extractEmailContent (Some two_plain_leaves) <>
    Ok {| textContent := js "A"; htmlContent := [] |}.
Proof. repeat split; try (vm_compute; reflexivity). vm_compute. discriminate. Qed.

(** C1, amended: [textContent] is the decoded content of the last part the
    traversal visits that is [text/plain] with non-empty [body.data], and
    [htmlContent] that of the last such [text/html] part, each later match
    overwriting the earlier one (the empty string when there is none). On a
    well-formed tree these are the last such leaves in depth-first,
    children-in-order traversal. *)
Theorem extractEmailContent_last_wins (part : Part) :
  extractEmailContent (Some part) =
    Ok {| textContent := last_decoded Plain (visited part);
          htmlContent := last_decoded Html (visited part) |} /\
  (well_formed part ->
   extractEmailContent (Some part) =
     Ok {| textContent := last_decoded Plain (leaves part);
           htmlContent := last_decoded Html (leaves part) |}).
Proof.
  split; [apply extractEmailContent_visited|].
  intros Hwf. rewrite extractEmailContent_visited.
  unfold last_decoded. rewrite !visited_leaves by exact Hwf. reflexivity.
Qed.

Lemma extractEmailContent_last_wins_witness :
  well_formed two_plain_leaves /\
  extractEmailContent (Some two_plain_leaves) =
    Ok {| textContent := last_decoded Plain (leaves two_plain_leaves);
          htmlContent := last_decoded Html (leaves two_plain_leaves) |}.
Proof.
  assert (H : well_formed two_plain_leaves).
  { unfold well_formed. simpl. repeat constructor; intros; discriminate. }
  split; [exact H|].
  exact (proj2 (extractEmailContent_last_wins two_plain_leaves) H).
Defined.

(** C9, as the spec has it, fails: a [text/plain] part with content of its
    own takes the first branch of [findParts], and its children are not
    visited. The HTML child of [mixed_part] leaves [htmlContent] empty,
    though a traversal of the children would fill it with ["B"]. *)
Lemma findParts_skips_children_of_match :
  parts mixed_part = Some [leaf "text/html" "Qg=="] /\
  visited mixed_part = [mixed_part] /\
  extractEmailContent (Some mixed_part) =
    Ok {| textContent := js "A"; htmlContent := [] |} /\
  forEach findParts [leaf "text/html" "Qg=="] {| text := []; html := [] |} =
    Ok {| text := []; html := js "B" |}.
Proof. repeat split; vm_compute; reflexivity. Qed.

(** C9, amended: a part with children is recursed into, child by child in
    order, unless it is itself [text/plain] or [text/html] with non-empty
    [body.data]; in that case its own content is taken and its children are
    not visited. A part with neither a match nor children is skipped, and
    the traversal never throws. *)
Theorem findParts_recursion (part : Part) (v : Vars) :
  (forall children,
     parts part = Some children -> children <> [] -> node_kind part = None ->
     findParts part v = forEach findParts children v /\
     visited part = part :: flat_map visited children) /\
  (node_kind part <> None ->
   findParts part v = visit part v /\ visited part = [part]) /\
  (node_kind part = None -> is_leaf part = true -> findParts part v = Ok v) /\
  (exists v', findParts part v = Ok v').
Proof.
  split; [|split; [|split]].
  - intros children Hp Hne Hk. split.
    + rewrite findParts_eq, Hk, Hp.
      destruct children; [contradiction | reflexivity].
    + destruct part as [m b ps h]. simpl in *. rewrite Hk. subst ps. reflexivity.
  - intros Hk. split.
    + rewrite findParts_eq. destruct (node_kind part); [reflexivity | contradiction].
    + destruct part as [m b ps h]. simpl in *.
      destruct (node_kind _); [reflexivity | contradiction].
  - intros Hk Hl. rewrite findParts_eq, Hk. unfold is_leaf in Hl.
    destruct (parts part) as [[|c r]|]; [reflexivity | discriminate | reflexivity].
  - apply findParts_total.
Qed.

Lemma findParts_recursion_witness :
  findParts two_plain_leaves {| text := []; html := [] |} =
    forEach findParts [leaf "text/plain" "QQ=="; leaf "text/plain" "Qg=="]
      {| text := []; html := [] |} /\
  visited two_plain_leaves =
    two_plain_leaves ::
    flat_map visited [leaf "text/plain" "QQ=="; leaf "text/plain" "Qg=="].
Proof.
  apply (proj1 (findParts_recursion two_plain_leaves {| text := []; html := [] |})).
  - reflexivity.
  - discriminate.
  - reflexivity.
Defined.

(** ** The pattern of [extractVerifyUrl] *)

Lemma run_lit (w : jsstring) (s : jsstring) (k : jsstring -> option jsstring) :
  RegExp.run (fold_right (fun c r => RegExp.Seq (RegExp.Chr c) r) RegExp.Eps w) s k =
  match strip_ci w s with
  | Some rest => k rest
  | None => None
  end.
Proof.
  revert s. induction w as [|c w IH]; intros s; [reflexivity|].
  simpl. destruct s as [|x t]; [reflexivity|].
  destruct (RegExp.chr_eqb c x); [apply IH | reflexivity].
Qed.

Lemma star_final (cls : N -> bool) (s : jsstring) :
  RegExp.star cls s Some = Some (skip cls s).
Proof.
  induction s as [|x t IH]; [reflexivity|].
  simpl. destruct (cls x); [rewrite IH|]; reflexivity.
Qed.

Lemma star_Some (cls : N -> bool) (s : jsstring)
      (k : jsstring -> option jsstring) (r : jsstring) :
  RegExp.star cls s k = Some r ->
  exists pre post,
    s = pre ++ post /\ Forall (fun c => cls c = true) pre /\ k post = Some r.
Proof.
  induction s as [|x t IH]; simpl; intros H.
  - exists [], []. auto.
  - destruct (cls x) eqn:Hx.
    + destruct (RegExp.star cls t k) as [r'|] eqn:E.
      * destruct (IH H) as (pre & post & -> & Hpre & Hk).
        exists (x :: pre), post. split; [reflexivity|]. split; [|exact Hk].
        constructor; assumption.
      * exists [], (x :: t). auto.
    + exists [], (x :: t). auto.
Qed.

Lemma star_succeeds (cls : N -> bool) (pre post : jsstring)
      (k : jsstring -> option jsstring) (r : jsstring) :
  Forall (fun c => cls c = true) pre -> k post = Some r ->
  exists r', RegExp.star cls (pre ++ post) k = Some r'.
Proof.
  intros Hpre Hk. induction Hpre as [|x pre Hx _ IH].
  - simpl. destruct post as [|y t]; simpl; [eauto|].
    destruct (cls y); [|eauto].
    destruct (RegExp.star cls t k); eauto.
  - simpl. rewrite Hx. destruct IH as [r' ->]. eauto.
Qed.

Lemma skip_app (cls : N -> bool) (a b : jsstring) :
  Forall (fun c => cls c = true) a -> skip cls (a ++ b) = skip cls b.
Proof.
  induction 1 as [|x a Hx _ IH]; [reflexivity|]. simpl. rewrite Hx. exact IH.
Qed.

Lemma prefix_run_app (cls : N -> bool) (a b : jsstring) :
  Forall (fun c => cls c = true) a ->
  prefix_run cls (a ++ b) = a ++ prefix_run cls b.
Proof.
  induction 1 as [|x a Hx _ IH]; [reflexivity|]. simpl. rewrite Hx, IH.
  reflexivity.
Qed.

Lemma prefix_run_skip (cls : N -> bool) (s : jsstring) :
  s = prefix_run cls s ++ skip cls s /\
  Forall (fun c => cls c = true) (prefix_run cls s) /\
  match skip cls s with [] => True | c :: _ => cls c = false end.
Proof.
  induction s as [|x t (IH1 & IH2 & IH3)]; [simpl; auto|].
  simpl. destruct (cls x) eqn:Hx; simpl.
  - split; [congruence|]. split; [constructor; assumption | exact IH3].
  - auto.
Qed.

Lemma skip_outside (cls : N -> bool) (s : jsstring) :
  match s with [] => True | c :: _ => cls c = false end -> skip cls s = s.
Proof. destruct s as [|x t]; [reflexivity|]. simpl. intros ->. reflexivity. Qed.

Lemma prefix_run_outside (cls : N -> bool) (s : jsstring) :
  match s with [] => True | c :: _ => cls c = false end -> prefix_run cls s = [].
Proof. destruct s as [|x t]; [reflexivity|]. simpl. intros ->. reflexivity. Qed.

Lemma strip_ci_spec (w s rest : jsstring) :
  strip_ci w s = Some rest <-> exists w', s = w' ++ rest /\ ci_eq w' w.
Proof.
  revert s. induction w as [|c w IH]; intros s; simpl.
  - split.
    + intros [= ->]. exists []. split; reflexivity.
    + intros (w' & -> & H). destruct w'; [reflexivity | discriminate].
  - destruct s as [|x t].
    + split; [discriminate|]. intros (w' & H & Hci).
      destruct w'; [discriminate | discriminate].
    + unfold RegExp.chr_eqb. destruct (N.eqb_spec (RegExp.canonicalize x) (RegExp.canonicalize c)) as [E|E].
      * rewrite IH. split.
        -- intros (w' & -> & H). exists (x :: w'). split; [reflexivity|].
           unfold ci_eq in *. simpl. congruence.
        -- intros (w' & H & Hci). destruct w' as [|y w']; [discriminate|].
           injection H as -> ->. exists w'. split; [reflexivity|].
           unfold ci_eq in *. simpl in Hci. congruence.
      * split; [discriminate|]. intros (w' & H & Hci).
        destruct w' as [|y w']; [discriminate|].
        injection H as -> ->. unfold ci_eq in Hci. simpl in Hci.
        injection Hci as Hc _. contradiction.
Qed.

Lemma strip_ci_head (c : N) (w s r : jsstring) :
  strip_ci (c :: w) s = Some r ->
  exists x t, s = x :: t /\ RegExp.canonicalize x = RegExp.canonicalize c.
Proof.
  simpl. destruct s as [|x t]; [discriminate|].
  unfold RegExp.chr_eqb.
  destruct (N.eqb_spec (RegExp.canonicalize x) (RegExp.canonicalize c));
    [eauto | discriminate].
Qed.

Lemma strip_ci_head_ne (c : N) (w : jsstring) (x : N) (t : jsstring) :
  RegExp.canonicalize x <> RegExp.canonicalize c ->
  strip_ci (c :: w) (x :: t) = None.
Proof.
  intros H. simpl. unfold RegExp.chr_eqb.
  destruct (N.eqb_spec (RegExp.canonicalize x) (RegExp.canonicalize c));
    [contradiction | reflexivity].
Qed.

Lemma strip_ci_app (w kw rest : jsstring) :
  ci_eq kw w -> strip_ci w (kw ++ rest) = Some rest.
Proof. intros H. apply strip_ci_spec. exists kw. auto. Qed.

(** Three literals whose first letters differ under the [i] flag: at most
    one of them can be stripped. *)
Lemma strip_ci_exclusive (c d : N) (w1 w2 s r : jsstring) :
  RegExp.canonicalize c <> RegExp.canonicalize d ->
  strip_ci (c :: w1) s = Some r -> strip_ci (d :: w2) s = None.
Proof.
  intros Hne H. apply strip_ci_head in H as (x & t & -> & Hx).
  apply strip_ci_head_ne. congruence.
Qed.

Lemma js_verify : js "verify" = 118 :: js "erify".
Proof. reflexivity. Qed.

Lemma js_confirm : js "confirm" = 99 :: js "onfirm".
Proof. reflexivity. Qed.

Lemma js_activate : js "activate" = 97 :: js "ctivate".
Proof. reflexivity. Qed.

Lemma run_keyword (s : jsstring) (k : jsstring -> option jsstring) :
  RegExp.run keyword s k =
  match strip_keyword s with
  | Some rest => k rest
  | None => None
  end.
Proof.
  change (RegExp.run keyword s k) with
    (match RegExp.run (RegExp.lit "verify") s k with
     | Some r => Some r
     | None =>
         match RegExp.run (RegExp.lit "confirm") s k with
         | Some r => Some r
         | None => RegExp.run (RegExp.lit "activate") s k
         end
     end).
  unfold RegExp.lit. rewrite !run_lit. unfold strip_keyword.
  destruct (strip_ci (js "verify") s) as [r1|] eqn:E1.
  - rewrite js_verify in E1.
    rewrite js_confirm, js_activate.
    rewrite (strip_ci_exclusive 118 99 _ _ s r1) by (try discriminate; exact E1).
    rewrite (strip_ci_exclusive 118 97 _ _ s r1) by (try discriminate; exact E1).
    destruct (k r1); reflexivity.
  - destruct (strip_ci (js "confirm") s) as [r2|] eqn:E2; [|reflexivity].
    rewrite js_confirm in E2. rewrite js_activate.
    rewrite (strip_ci_exclusive 99 97 _ _ s r2) by (try discriminate; exact E2).
    destruct (k r2); reflexivity.
Qed.

Lemma strip_keyword_sound (s rest : jsstring) :
  strip_keyword s = Some rest -> exists kw, s = kw ++ rest /\ is_keyword kw.
Proof.
  unfold strip_keyword, is_keyword. intros H.
  destruct (strip_ci (js "verify") s) as [r1|] eqn:E1.
  - injection H as ->. apply strip_ci_spec in E1 as (kw & -> & Hk). eauto.
  - destruct (strip_ci (js "confirm") s) as [r2|] eqn:E2.
    + injection H as ->. apply strip_ci_spec in E2 as (kw & -> & Hk). eauto 6.
    + apply strip_ci_spec in H as (kw & -> & Hk). eauto 6.
Qed.

Lemma ci_eq_head (kw : jsstring) (d : N) (w : jsstring) :
  ci_eq kw (d :: w) ->
  exists x t, kw = x :: t /\ RegExp.canonicalize x = RegExp.canonicalize d.
Proof.
  unfold ci_eq. destruct kw as [|x t]; [discriminate|].
  simpl. intros [= H _]. eauto.
Qed.

Lemma strip_ci_other (c d : N) (w1 w2 kw rest : jsstring) :
  RegExp.canonicalize d <> RegExp.canonicalize c ->
  ci_eq kw (d :: w2) -> strip_ci (c :: w1) (kw ++ rest) = None.
Proof.
  intros Hne H. apply ci_eq_head in H as (x & t & -> & Hx).
  apply strip_ci_head_ne. congruence.
Qed.

Lemma strip_keyword_complete (kw rest : jsstring) :
  is_keyword kw -> strip_keyword (kw ++ rest) = Some rest.
Proof.
  unfold strip_keyword. intros [H | [H | H]].
  - rewrite (strip_ci_app _ _ _ H). reflexivity.
  - rewrite js_verify, (strip_ci_other 118 99 _ (js "onfirm") kw rest)
      by (try discriminate; exact H).
    rewrite (strip_ci_app _ _ _ H). reflexivity.
  - rewrite js_verify, (strip_ci_other 118 97 _ (js "ctivate") kw rest)
      by (try discriminate; exact H).
    rewrite js_confirm, (strip_ci_other 99 97 _ (js "ctivate") kw rest)
      by (try discriminate; exact H).
    apply strip_ci_app, H.
Qed.

Lemma letter_url_char (x : N) : 65 <= x <= 122 -> url_char x = true.
Proof.
  intros H. unfold url_char, RegExp.is_space.
  decide_comparisons; try reflexivity.
Qed.

Lemma canonicalize_letter (c x : N) :
  97 <= c <= 122 -> RegExp.canonicalize x = RegExp.canonicalize c ->
  65 <= x <= 122.
Proof.
  unfold RegExp.canonicalize. intros Hc.
  decide_comparisons; simpl; try lia.
Qed.

Lemma ci_eq_letters (a b : jsstring) :
  ci_eq a b -> Forall (fun c => 97 <= c <= 122) b ->
  Forall (fun x => url_char x = true) a.
Proof.
  unfold ci_eq. revert b. induction a as [|x a IH]; intros b H Hb; [constructor|].
  destruct b as [|c b]; [discriminate|]. simpl in H. injection H as Hx H.
  apply Forall_cons in Hb as [Hc Hb]. constructor.
  - apply letter_url_char, (canonicalize_letter c x Hc Hx).
  - apply (IH b H Hb).
Qed.

Lemma keyword_url_chars (kw : jsstring) :
  is_keyword kw -> Forall (fun x => url_char x = true) kw.
Proof.
  intros [H | [H | H]]; apply (ci_eq_letters _ _ H);
    vm_compute; repeat constructor; discriminate.
Qed.

Lemma run_url_tail (s0 : jsstring) :
  RegExp.run url_tail s0 Some =
  match s0 with
  | x :: t =>
      if url_char x then
        RegExp.star url_char t
          (fun q => match strip_keyword q with
                    | Some rest => Some (skip url_char rest)
                    | None => None
                    end)
      else None
  | [] => None
  end.
Proof.
  destruct s0 as [|x t]; [reflexivity|].
  change (RegExp.run url_tail (x :: t) Some) with
    (if url_char x then
       RegExp.star url_char t
         (fun q => RegExp.run keyword q (fun q' => RegExp.star url_char q' Some))
     else None).
  destruct (url_char x); [|reflexivity].
  assert (E : forall q,
             RegExp.run keyword q (fun q' => RegExp.star url_char q' Some) =
             match strip_keyword q with
             | Some rest => Some (skip url_char rest)
             | None => None
             end).
  { intros q. rewrite run_keyword. destruct (strip_keyword q); [apply star_final | reflexivity]. }
  clear -E. induction t as [|y t IH]; cbn [RegExp.star].
  - apply E.
  - rewrite IH, E. reflexivity.
Qed.

Lemma url_tail_sound (s0 r : jsstring) :
  RegExp.run url_tail s0 Some = Some r ->
  r = skip url_char s0 /\ keyword_inside (prefix_run url_char s0).
Proof.
  rewrite run_url_tail. destruct s0 as [|x t]; [discriminate|].
  destruct (url_char x) eqn:Hx; [|discriminate].
  intros H. apply star_Some in H as (p & q & -> & Hp & Hq).
  destruct (strip_keyword q) as [rest|] eqn:Hk; [|discriminate].
  injection Hq as <-.
  apply strip_keyword_sound in Hk as (kw & -> & Hkw).
  assert (Hall : Forall (fun c => url_char c = true) ((x :: p) ++ kw)).
  { apply Forall_app. split; [constructor; assumption | apply keyword_url_chars, Hkw]. }
  change (x :: p ++ kw ++ rest) with ((x :: p) ++ kw ++ rest).
  rewrite (app_assoc (x :: p) kw rest).
  split.
  - rewrite skip_app by exact Hall. reflexivity.
  - rewrite prefix_run_app by exact Hall.
    exists (x :: p), kw, (prefix_run url_char rest).
    rewrite <- app_assoc. split; [reflexivity|]. split; [discriminate | exact Hkw].
Qed.

Lemma url_tail_complete (chars rest : jsstring) :
  keyword_inside chars -> Forall (fun c => url_char c = true) chars ->
  starts_outside rest ->
  RegExp.run url_tail (chars ++ rest) Some = Some rest.
Proof.
  intros (pre & kw & post & -> & Hne & Hkw) Hall Hout.
  assert (Hsome : exists r, RegExp.run url_tail ((pre ++ kw ++ post) ++ rest) Some = Some r).
  { rewrite run_url_tail. destruct pre as [|x p]; [contradiction|].
    simpl in Hall. apply Forall_cons in Hall as [Hx Hall].
    apply Forall_app in Hall as [Hp _].
    simpl. rewrite Hx. rewrite <- !app_assoc.
    apply star_succeeds with (r := skip url_char (post ++ rest)); [exact Hp|].
    rewrite strip_keyword_complete by exact Hkw. reflexivity. }
  destruct Hsome as [r Hr]. rewrite Hr. f_equal.
  apply url_tail_sound in Hr as [-> _].
  rewrite skip_app by exact Hall. apply skip_outside, Hout.
Qed.

Lemma js_separator : js "://" = 58 :: js "//".
Proof. reflexivity. Qed.

Lemma canonicalize_not_letter (c x : N) :
  c < 65 -> RegExp.canonicalize x = RegExp.canonicalize c -> x = c.
Proof.
  unfold RegExp.canonicalize. intros Hc.
  decide_comparisons; simpl; try lia.
Qed.

(** The separator has no letter, so only itself equals it under [i]. *)
Lemma ci_eq_separator (w : jsstring) : ci_eq w (js "://") -> w = js "://".
Proof.
  unfold ci_eq. change (js "://") with [58; 47; 47].
  destruct w as [|a [|b [|c [|d w]]]]; try discriminate.
  simpl. intros [= Ha Hb Hc].
  rewrite (canonicalize_not_letter 58 a), (canonicalize_not_letter 47 b),
    (canonicalize_not_letter 47 c); try assumption; try reflexivity.
Qed.

Lemma run_urlRegex (s : jsstring) :
  RegExp.run urlRegex s Some =
  match strip_scheme s with
  | Some s0 => RegExp.run url_tail s0 Some
  | None => None
  end.
Proof.
  change (RegExp.run urlRegex s Some) with
    (RegExp.run (RegExp.lit "http") s
       (fun s1 =>
          match
            match s1 with
            | x :: t =>
                if RegExp.chr_eqb 115 x
                then RegExp.run (RegExp.lit "://") t
                       (fun s3 => RegExp.run url_tail s3 Some)
                else None
            | [] => None
            end
          with
          | Some r => Some r
          | None => RegExp.run (RegExp.lit "://") s1
                      (fun s3 => RegExp.run url_tail s3 Some)
          end)).
  unfold RegExp.lit. rewrite run_lit. unfold strip_scheme.
  destruct (strip_ci (js "http") s) as [[|x t]|]; try reflexivity.
  rewrite !run_lit.
  destruct (RegExp.chr_eqb 115 x) eqn:Hx; [|reflexivity].
  assert (Hno : strip_ci (js "://") (x :: t) = None).
  { rewrite js_separator. apply strip_ci_head_ne.
    unfold RegExp.chr_eqb in Hx. apply N.eqb_eq in Hx. rewrite Hx. discriminate. }
  rewrite Hno.
  destruct (strip_ci (js "://") t) as [s0|]; [|reflexivity].
  destruct (RegExp.run url_tail s0 Some); reflexivity.
Qed.

Lemma strip_scheme_sound (s s0 : jsstring) :
  strip_scheme s = Some s0 ->
  exists scheme, s = scheme ++ js "://" ++ s0 /\ is_scheme scheme.
Proof.
  unfold strip_scheme.
  destruct (strip_ci (js "http") s) as [[|x t]|] eqn:E; try discriminate.
  apply strip_ci_spec in E as (w & -> & Hw).
  destruct (RegExp.chr_eqb 115 x) eqn:Hx; intros H;
    apply strip_ci_spec in H as (sep & Hsep & Hci);
    apply ci_eq_separator in Hci; subst sep.
  - exists (w ++ [x]). subst t. rewrite <- app_assoc. split; [reflexivity|].
    right. unfold ci_eq in *. rewrite map_app, Hw. simpl.
    unfold RegExp.chr_eqb in Hx. apply N.eqb_eq in Hx. rewrite Hx. reflexivity.
  - exists w. rewrite Hsep. split; [reflexivity|]. left. exact Hw.
Qed.

Lemma strip_scheme_complete (scheme s0 : jsstring) :
  is_scheme scheme -> strip_scheme (scheme ++ js "://" ++ s0) = Some s0.
Proof.
  unfold strip_scheme. intros [H | H].
  - rewrite (strip_ci_app _ _ _ H).
    change (js "://" ++ s0) with (58 :: js "//" ++ s0).
    change (RegExp.chr_eqb 115 58) with false. cbv iota.
    change (58 :: js "//" ++ s0) with (js "://" ++ s0).
    apply strip_ci_app. reflexivity.
  - unfold ci_eq in H. change (js "https") with (js "http" ++ [115]) in H.
    rewrite map_app in H.
    apply map_eq_app in H as (w & e & -> & Hw & He).
    destruct e as [|x [|y e]]; try discriminate.
    simpl in He. injection He as Hx.
    rewrite <- app_assoc. rewrite (strip_ci_app (js "http") w _ Hw).
    change ([x] ++ js "://" ++ s0) with (x :: js "://" ++ s0). cbv beta iota.
    replace (RegExp.chr_eqb 115 x) with true
      by (unfold RegExp.chr_eqb; rewrite Hx; reflexivity).
    apply strip_ci_app. reflexivity.
Qed.

Lemma take_prefix (a b : jsstring) :
  take (length (a ++ b) - length b) (a ++ b) = a.
Proof.
  rewrite length_app. replace (length a + length b - length b)%nat with (length a) by lia.
  apply take_app_length.
Qed.

(** The matcher agrees with the description of a URL. *)
Lemma exec_at_url_at (s u : jsstring) :
  RegExp.exec_at urlRegex s = Some u <-> url_at s u.
Proof.
  unfold RegExp.exec_at. rewrite run_urlRegex. split.
  - destruct (strip_scheme s) as [s0|] eqn:Hs; [|discriminate].
    destruct (RegExp.run url_tail s0 Some) as [rest|] eqn:Ht; [|discriminate].
    intros [= <-].
    apply strip_scheme_sound in Hs as (scheme & -> & Hscheme).
    apply url_tail_sound in Ht as [-> Hkw].
    destruct (prefix_run_skip url_char s0) as (Hsplit & Hrun & Hout).
    remember (prefix_run url_char s0) as chars eqn:Erun.
    remember (skip url_char s0) as rest eqn:Erest.
    clear Erun Erest. subst s0.
    exists scheme, chars, rest. split; [reflexivity|]. split.
    + rewrite !app_assoc. rewrite take_prefix. reflexivity.
    + auto.
  - intros (scheme & chars & rest & -> & -> & Hscheme & Hrun & Hout & Hkw).
    rewrite (strip_scheme_complete scheme (chars ++ rest) Hscheme).
    rewrite (url_tail_complete chars rest Hkw Hrun Hout).
    rewrite !app_assoc. rewrite take_prefix. reflexivity.
Qed.

(** ** The first match *)

Lemma head_match_all_from (r : RegExp.regex) (s : jsstring) :
  head (RegExp.match_all_from r s 0) = leftmost r s.
Proof.
  induction s as [|x t IH]; simpl.
  - destruct (RegExp.exec_at r []); reflexivity.
  - destruct (RegExp.exec_at r (x :: t)); [reflexivity | exact IH].
Qed.

Lemma String_match_head (s : jsstring) (r : RegExp.regex) :
  match RegExp.String_match s r with
  | Some matches => head matches
  | None => None
  end = leftmost r s.
Proof.
  unfold RegExp.String_match. rewrite <- head_match_all_from.
  destruct (RegExp.match_all_from r s 0); reflexivity.
Qed.

Lemma leftmost_is_leftmost_url (t : jsstring) :
  leftmost_url t (leftmost urlRegex t).
Proof.
  induction t as [|x t IH]; cbn [leftmost].
  - destruct (RegExp.exec_at urlRegex []) as [u|] eqn:E; simpl.
    + exists [], []. split; [reflexivity|]. split; [apply exec_at_url_at, E|].
      intros pre' post' u' _ H. simpl in H. lia.
    + intros pre post u H. symmetry in H. apply app_eq_nil in H as [_ ->].
      rewrite <- exec_at_url_at, E. discriminate.
  - destruct (RegExp.exec_at urlRegex (x :: t)) as [u|] eqn:E; simpl.
    + exists [], (x :: t). split; [reflexivity|]. split; [apply exec_at_url_at, E|].
      intros pre' post' u' _ H. simpl in H. lia.
    + destruct (leftmost urlRegex t) as [u|]; simpl in *.
      * destruct IH as (pre & post & -> & Hu & Hmin).
        exists (x :: pre), post. split; [reflexivity|]. split; [exact Hu|].
        intros pre' post' u' H Hlen. destruct pre' as [|y pre'].
        -- simpl in H. subst post'. rewrite <- exec_at_url_at, E. discriminate.
        -- simpl in H, Hlen. injection H as _ H.
           apply (Hmin pre' post' u' H). lia.
      * intros pre post u H. destruct pre as [|y pre].
        -- simpl in H. subst post. rewrite <- exec_at_url_at, E. discriminate.
        -- simpl in H. injection H as _ H. apply (IH pre post u H).
Qed.

Lemma extractEmailContent_total (payload : option Part) :
  exists c, extractEmailContent payload = Ok c.
Proof.
  destruct payload as [part|]; [|simpl; eauto].
  rewrite extractEmailContent_visited. eauto.
Qed.

Lemma extractVerifyUrl_leftmost (email : Message) (c : Content) :
  extractEmailContent (payload email) = Ok c ->
  extractVerifyUrl (Some email) = Ok (leftmost urlRegex (textToSearch c)).
Proof.
  intros H. unfold extractVerifyUrl. rewrite H. simpl.
  rewrite String_match_head. reflexivity.
Qed.

(** C5, as the spec has it, fails: in ["http://verify.example.com"] the
    keyword follows the scheme separator at once, the run after the
    separator does hold ["verify"], and [extractVerifyUrl] finds nothing,
    since the pattern wants one character or more before the keyword. *)
Lemma extractVerifyUrl_keyword_after_separator :
  decodeContent (Some (js "aHR0cDovL3ZlcmlmeS5leGFtcGxlLmNvbQ==")) =
    Ok (js "http://verify.example.com") /\
  extractVerifyUrl (Some (plain_message "aHR0cDovL3ZlcmlmeS5leGFtcGxlLmNvbQ==")) =
    Ok None /\
  RegExp.String_match (js "http://verify.example.com") urlRegex = None.
Proof. repeat split; vm_compute; reflexivity. Qed.

(** C5, amended: the pattern matches at the start of a text exactly when
    the text starts with [http] or [https] (in any case), [://] and a
    maximal run of characters other than white space, [<], [>] and the
    double quote that holds [verify], [confirm] or [activate] (in any case)
    after at least one character of the run; the match is the scheme, the
    separator and the whole run. [extractVerifyUrl] returns a URL exactly
    when the search text has such a URL at some position. *)
Theorem urlRegex_matches_url :
  (forall s u, RegExp.exec_at urlRegex s = Some u <-> url_at s u) /\
  (forall email c,
     extractEmailContent (payload email) = Ok c ->
     ((exists u, extractVerifyUrl (Some email) = Ok (Some u)) <->
      (exists pre post u, textToSearch c = pre ++ post /\ url_at post u))).
Proof.
  split; [exact exec_at_url_at|].
  intros email c Hc. rewrite (extractVerifyUrl_leftmost email c Hc).
  pose proof (leftmost_is_leftmost_url (textToSearch c)) as H.
  destruct (leftmost urlRegex (textToSearch c)) as [u|]; simpl in H.
  - split; [|eauto]. intros _.
    destruct H as (pre & post & Ht & Hu & _). eauto.
  - split.
    + intros [u [=]].
    + intros (pre & post & u & Ht & Hu). destruct (H pre post u Ht Hu).
Qed.

Lemma urlRegex_matches_url_witness :
  exists u, extractVerifyUrl
              (Some (plain_message "Y2xpY2sgaHR0cDovL3gudGVzdC92ZXJpZnk_dG9rPTEgbm93")) =
            Ok (Some u).
Proof.
  apply (proj2 urlRegex_matches_url
           (plain_message "Y2xpY2sgaHR0cDovL3gudGVzdC92ZXJpZnk_dG9rPTEgbm93")
           {| textContent := js "click http://x.test/verify?tok=1 now";
              htmlContent := [] |}).
  - vm_compute. reflexivity.
  - exists (js "click "), (js "http://x.test/verify?tok=1 now"),
      (js "http://x.test/verify?tok=1").
    split; [reflexivity|].
    exists (js "http"), (js "x.test/verify?tok=1"), (js " now").
    split; [reflexivity|]. split; [reflexivity|].
    split; [left; reflexivity|].
    split; [vm_compute; repeat constructor|].
    split; [reflexivity|].
    exists (js "x.test/"), (js "verify"), (js "?tok=1").
    split; [reflexivity|]. split; [discriminate | left; reflexivity].
Defined.

(** C6, as the spec has it, fails: of two candidate links the earlier one
    does not always win. In ["http://verify.a.test http://b.test/x/verify"]
    the text starts with a link that has a keyword in its run, a candidate
    in the words of the spec, and [extractVerifyUrl] returns the later link,
    the keyword of the first one having no character of the run before
    it. *)
Lemma extractVerifyUrl_later_candidate_wins :
  decodeContent (Some (js "aHR0cDovL3ZlcmlmeS5hLnRlc3QgaHR0cDovL2IudGVzdC94L3ZlcmlmeQ==")) =
    Ok (js "http://verify.a.test http://b.test/x/verify") /\
  spec_url_at (js "http://verify.a.test http://b.test/x/verify")
    (js "http://verify.a.test") /\
  extractVerifyUrl
    (Some (plain_message "aHR0cDovL3ZlcmlmeS5hLnRlc3QgaHR0cDovL2IudGVzdC94L3ZlcmlmeQ==")) =
    Ok (Some (js "http://b.test/x/verify")).
Proof.
  split; [vm_compute; reflexivity|]. split; [|vm_compute; reflexivity].
  exists (js "http"), (js "verify.a.test"), (js " http://b.test/x/verify").
  split; [reflexivity|]. split; [reflexivity|].
  split; [left; reflexivity|].
  split; [vm_compute; repeat constructor|].
  split; [reflexivity|].
  exists [], (js "verify"), (js ".a.test").
  split; [reflexivity | left; reflexivity].
Qed.

(** C6, amended: [extractVerifyUrl] never throws; it searches [textContent]
    when that is not empty, else [htmlContent], else the empty string, and
    returns the URL at the left-most position of the search text that has
    one, or [null] when no position has one. A URL is what the pattern
    matches ([url_at]): its keyword comes after at least one character of
    the run. *)
Theorem extractVerifyUrl_first_match :
  (forall email : Message,
     exists c t res,
       extractEmailContent (payload email) = Ok c /\
       (textContent c <> [] -> t = textContent c) /\
       (textContent c = [] -> htmlContent c <> [] -> t = htmlContent c) /\
       (textContent c = [] -> htmlContent c = [] -> t = []) /\
       extractVerifyUrl (Some email) = Ok res /\
       leftmost_url t res) /\
  extractVerifyUrl
    (Some (plain_message "Y2xpY2sgaHR0cDovL3gudGVzdC92ZXJpZnk_dG9rPTEgbm93")) =
    Ok (Some (js "http://x.test/verify?tok=1")) /\
  decodeContent
    (Some (js "c2VlIGh0dHA6Ly9vbmUudGVzdC9jb25maXJtIG9yIGh0dHBzOi8vdHdvLnRlc3QvbG9uZy9wYXRoL3ZlcmlmeT94")) =
    Ok (js "see http://one.test/confirm or https://two.test/long/path/verify?x") /\
  extractVerifyUrl
    (Some (plain_message
             "c2VlIGh0dHA6Ly9vbmUudGVzdC9jb25maXJtIG9yIGh0dHBzOi8vdHdvLnRlc3QvbG9uZy9wYXRoL3ZlcmlmeT94")) =
    Ok (Some (js "http://one.test/confirm")) /\
  extractVerifyUrl
    (Some (plain_message "bm90aGluZyB0byBzZWUgYXQgaHR0cDovL3gudGVzdC9ob21l")) =
    Ok None.
Proof.
  split; [|repeat split; vm_compute; reflexivity].
  intros email.
  destruct (extractEmailContent_total (payload email)) as [c Hc].
  exists c, (textToSearch c), (leftmost urlRegex (textToSearch c)).
  split; [exact Hc|].
  unfold textToSearch.
  split; [destruct (textContent c); [congruence | reflexivity]|].
  split; [intros ->; destruct (htmlContent c); [congruence | reflexivity]|].
  split; [intros -> ->; reflexivity|].
  split; [apply extractVerifyUrl_leftmost, Hc|].
  apply leftmost_is_leftmost_url.
Qed.

(** ** The connection *)

Lemma live_at_alter (f : Socket -> Socket) (i j : nat) (st : State) :
  live_at (set_sockets (alter f i) st) j =
  if decide (i = j) then
    match sockets st !! i with
    | Some s => live (f s)
    | None => false
    end
  else live_at st j.
Proof.
  unfold live_at, set_sockets. simpl. rewrite list_lookup_alter.
  destruct (decide (i = j)) as [->|]; [|reflexivity].
  destruct (sockets st !! j); reflexivity.
Qed.

Lemma live_at_add_log (a : Action) (st : State) (j : nat) :
  live_at (add_log a st) j = live_at st j.
Proof. reflexivity. Qed.

Lemma live_at_ws_close (i j : nat) (st : State) :
  live_at (ws_close i st) j = if decide (i = j) then false else live_at st j.
Proof.
  unfold ws_close. rewrite live_at_add_log, live_at_alter.
  destruct (decide (i = j)); [|reflexivity].
  destruct (sockets st !! i) as [s|]; [|reflexivity].
  unfold live. destruct (readyState s) eqn:R; simpl; rewrite ?R; reflexivity.
Qed.

Lemma length_sockets_ws_close (i : nat) (st : State) :
  length (sockets (ws_close i st)) = length (sockets st).
Proof. unfold ws_close. simpl. apply length_alter. Qed.

(** After [connectWebSocket] only the new socket is live. *)
Lemma live_at_connectWebSocket (email : jsstring) (st : State) (j : nat) :
  single_live st ->
  live_at (connectWebSocket email st) j =
  bool_decide (j = length (sockets st)).
Proof.
  intros Hinv. unfold connectWebSocket.
  set (st1 := match ws_current st with Some i => ws_close i st | None => st end).
  assert (Hlen : length (sockets st1) = length (sockets st)).
  { unfold st1. destruct (ws_current st); [apply length_sockets_ws_close | reflexivity]. }
  assert (Hdead : forall k, live_at st1 k = false).
  { intros k. unfold st1. destruct (ws_current st) as [i|] eqn:E.
    - rewrite live_at_ws_close. destruct (decide (i = k)); [reflexivity|].
      destruct (live_at st k) eqn:L; [|reflexivity].
      apply Hinv in L. congruence.
    - destruct (live_at st k) eqn:L; [|reflexivity].
      apply Hinv in L. congruence. }
  unfold live_at, ws_new. simpl. rewrite <- Hlen.
  destruct (decide (j < length (sockets st1))%nat) as [Hlt|Hge].
  - rewrite lookup_app_l by exact Hlt.
    rewrite bool_decide_eq_false_2 by lia. apply Hdead.
  - destruct (decide (j = length (sockets st1))) as [->|Hne].
    + rewrite list_lookup_middle by reflexivity.
      rewrite bool_decide_eq_true_2 by reflexivity. reflexivity.
    + rewrite bool_decide_eq_false_2 by exact Hne.
      rewrite lookup_ge_None_2; [reflexivity|].
      rewrite length_app. simpl. lia.
Qed.

Lemma ws_current_connectWebSocket (email : jsstring) (st : State) :
  ws_current (connectWebSocket email st) = Some (length (sockets st)).
Proof.
  unfold connectWebSocket, ws_new. simpl. f_equal.
  destruct (ws_current st); [apply length_sockets_ws_close | reflexivity].
Qed.

Lemma length_sockets_connectWebSocket (email : jsstring) (st : State) :
  length (sockets (connectWebSocket email st)) = S (length (sockets st)).
Proof.
  unfold connectWebSocket, ws_new. simpl. rewrite length_app. simpl.
  destruct (ws_current st); [rewrite length_sockets_ws_close|]; lia.
Qed.

Lemma single_live_connectWebSocket (email : jsstring) (st : State) :
  single_live st -> single_live (connectWebSocket email st).
Proof.
  intros Hinv i Hi. rewrite live_at_connectWebSocket in Hi by exact Hinv.
  apply bool_decide_eq_true_1 in Hi. subst i.
  apply ws_current_connectWebSocket.
Qed.

Lemma quiet_refl (st : State) : quiet st st.
Proof. unfold quiet. repeat split; eauto. Qed.

Lemma quiet_trans (st1 st2 st3 : State) :
  quiet st1 st2 -> quiet st2 st3 -> quiet st1 st3.
Proof.
  intros (H1 & H2 & H3 & H4) (K1 & K2 & K3 & K4). unfold quiet.
  split; [congruence|]. split; [congruence|]. split; [auto|].
  intros j s Hs. destruct (H4 j s Hs) as (s' & Hs' & E').
  destruct (K4 j s' Hs') as (s'' & Hs'' & E''). exists s''. split; congruence.
Qed.

(** An update of one socket that keeps its address and does not make it
    live. *)
Lemma quiet_alter (f : Socket -> Socket) (i : nat) (st : State) :
  (forall s, sub_email (f s) = sub_email s) ->
  (forall s, sockets st !! i = Some s -> live (f s) = true -> live s = true) ->
  quiet st (set_sockets (alter f i) st).
Proof.
  intros Hmail Hlive. unfold quiet. simpl.
  split; [reflexivity|]. split; [apply length_alter|]. split.
  - intros j. rewrite live_at_alter. destruct (decide (i = j)) as [->|]; [|auto].
    unfold live_at. destruct (sockets st !! j) as [s|] eqn:E; [|discriminate].
    apply Hlive. reflexivity.
  - intros j s Hs. rewrite list_lookup_alter.
    destruct (decide (i = j)) as [->|].
    + rewrite Hs. simpl. eauto.
    + eauto.
Qed.

Lemma quiet_add_log (a : Action) (st : State) : quiet st (add_log a st).
Proof. unfold quiet. simpl. repeat split; eauto. Qed.

Lemma quiet_setVerificationStatus f (st : State) :
  quiet st (setVerificationStatus f st).
Proof. unfold quiet. simpl. repeat split; eauto. Qed.

Lemma quiet_setEmailData (d : jsval) (st : State) : quiet st (setEmailData d st).
Proof. unfold quiet. simpl. repeat split; eauto. Qed.

Lemma quiet_ws_close (i : nat) (st : State) : quiet st (ws_close i st).
Proof.
  unfold ws_close. eapply quiet_trans; [|apply quiet_add_log].
  apply quiet_alter.
  - intros s. destruct (readyState s); reflexivity.
  - intros s _. unfold live. destruct (readyState s) eqn:R; simpl; rewrite ?R; congruence.
Qed.

Lemma quiet_ws_send (i : nat) (frame : jsval) (st st' : State) :
  ws_send i frame st = Ok st' -> quiet st st'.
Proof.
  unfold ws_send. destruct (sockets st !! i) as [s|]; [|discriminate].
  destruct (readyState s); try discriminate; intros [= <-].
  - eapply quiet_trans; [|apply quiet_add_log].
    apply quiet_alter; [reflexivity | auto].
  - apply quiet_add_log.
  - apply quiet_add_log.
Qed.

Lemma quiet_handled (st0 st : State) (c : exn State) :
  quiet st0 st -> (forall st', c = Ok st' -> quiet st st') ->
  quiet st0 (fst (handled st c)).
Proof.
  intros H0 H. destruct c as [st'|e]; simpl; [|exact H0].
  eapply quiet_trans; [exact H0 | apply H; reflexivity].
Qed.

Lemma quiet_onmessage (event_data : exn jsval) (st st' : State) :
  onmessage event_data st = Ok st' -> quiet st st'.
Proof.
  unfold onmessage. intros H.
  apply exn_bind_Ok in H as (data & _ & H).
  apply exn_bind_Ok in H as (ty & _ & H).
  destruct (strict_eq_str ty _).
  - apply exn_bind_Ok in H as (m & _ & H).
    apply exn_bind_Ok in H as (s & _ & H).
    injection H as <-. apply quiet_setVerificationStatus.
  - injection H as <-. apply quiet_refl.
Qed.

Lemma quiet_step (x : input) (st : State) :
  is_subscribe x = false -> quiet st (fst (step x st)).
Proof.
  destruct x as [email|i|i d|i|i|d|]; simpl; intros Hx; try discriminate.
  - destruct (sockets st !! i) as [s|] eqn:E; [|apply quiet_refl].
    destruct (readyState s) eqn:R; try apply quiet_refl.
    apply quiet_handled.
    + apply quiet_alter; [reflexivity|].
      intros s0 Hs0 _. rewrite E in Hs0. injection Hs0 as <-.
      unfold live. rewrite R. reflexivity.
    + unfold onopen. intros st'. destruct (ws_current _); [|discriminate].
      apply quiet_ws_send.
  - destruct (sockets st !! i) as [s|]; [|apply quiet_refl].
    destruct (readyState s); try apply quiet_refl.
    apply quiet_handled; [apply quiet_refl | apply quiet_onmessage].
  - apply quiet_refl.
  - apply quiet_alter; [reflexivity | discriminate].
  - apply quiet_handled; [apply quiet_refl|].
    unfold fetchEmailDetails_response. intros st' H.
    apply exn_bind_Ok in H as (k & _ & H).
    apply exn_bind_Ok in H as (v & _ & H).
    injection H as <-.
    eapply quiet_trans; [apply quiet_setEmailData | apply quiet_setVerificationStatus].
  - unfold unmount. destruct (ws_current st); [apply quiet_ws_close | apply quiet_refl].
Qed.

Lemma run_cons (x : input) (r : list input) (st : State) :
  fst (run (x :: r) st) = fst (run r (fst (step x st))).
Proof.
  simpl. destruct (step x st) as [st1 e]. simpl.
  destruct (run r st1) as [st2 es]. reflexivity.
Qed.

Lemma run_app (xs ys : list input) (st : State) :
  fst (run (xs ++ ys) st) = fst (run ys (fst (run xs st))).
Proof.
  revert st. induction xs as [|x xs IH]; intros st; [reflexivity|].
  rewrite <- app_comm_cons, !run_cons. apply IH.
Qed.

Lemma single_live_quiet (st st' : State) :
  quiet st st' -> single_live st -> single_live st'.
Proof.
  intros (Hcur & _ & Hlive & _) Hinv i Hi. rewrite Hcur. apply Hinv, Hlive, Hi.
Qed.

Lemma single_live_init : single_live init.
Proof. intros i Hi. unfold live_at in Hi. simpl in Hi. discriminate. Qed.

Lemma single_live_step (x : input) (st : State) :
  single_live st -> single_live (fst (step x st)).
Proof.
  intros Hinv. destruct (is_subscribe x) eqn:Hx.
  - destruct x; try discriminate. simpl.
    apply single_live_connectWebSocket, Hinv.
  - apply (single_live_quiet st); [apply quiet_step, Hx | exact Hinv].
Qed.

Lemma single_live_run (xs : list input) (st : State) :
  single_live st -> single_live (fst (run xs st)).
Proof.
  revert st. induction xs as [|x xs IH]; intros st Hinv; [exact Hinv|].
  rewrite run_cons. apply IH, single_live_step, Hinv.
Qed.

Lemma quiet_run (xs : list input) (st : State) :
  Forall (fun x => is_subscribe x = false) xs -> quiet st (fst (run xs st)).
Proof.
  intros H. revert st. induction H as [|x xs Hx _ IH]; intros st.
  - apply quiet_refl.
  - rewrite run_cons. eapply quiet_trans; [apply quiet_step, Hx | apply IH].
Qed.

Lemma filter_none {A} (P : A -> Prop) `{!forall x, Decision (P x)} (l : list A) :
  Forall (fun x => ~ P x) l -> filter P l = [].
Proof.
  induction 1 as [|x l Hx _ IH]; [reflexivity|].
  rewrite filter_cons_False by exact Hx. exact IH.
Qed.

Lemma live_sockets_connectWebSocket (email : jsstring) (st : State) :
  single_live st ->
  live_sockets (connectWebSocket email st) = [length (sockets st)].
Proof.
  intros Hinv. unfold live_sockets.
  rewrite length_sockets_connectWebSocket, seq_S, filter_app. simpl.
  rewrite filter_none.
  - rewrite filter_cons_True, filter_nil; [reflexivity|].
    rewrite live_at_connectWebSocket by exact Hinv.
    apply bool_decide_eq_true_2. reflexivity.
  - apply Forall_forall. intros i Hi. apply elem_of_seq in Hi.
    rewrite live_at_connectWebSocket by exact Hinv.
    rewrite bool_decide_eq_false_2 by lia. discriminate.
Qed.

Lemma length_all_equal {A} (l : list A) :
  NoDup l -> (forall x y, x ∈ l -> y ∈ l -> x = y) -> (length l <= 1)%nat.
Proof.
  intros Hnd Heq. destruct l as [|a [|b l]]; simpl; try lia.
  exfalso. apply NoDup_cons in Hnd as [Ha _]. apply Ha.
  rewrite (Heq a b); [left | left | right; left].
Qed.

Lemma single_live_at_most_one (st : State) :
  single_live st -> (length (live_sockets st) <= 1)%nat.
Proof.
  intros Hinv. apply length_all_equal.
  - apply NoDup_filter, NoDup_seq.
  - intros x y Hx Hy. unfold live_sockets in Hx, Hy.
    apply list_elem_of_filter in Hx as [Hx _], Hy as [Hy _].
    apply Hinv in Hx, Hy. congruence.
Qed.

(** When the connection of [ws.current] is established, the socket opens
    and its first frame is the subscription for the address it was made
    for. *)
Lemma step_NetOpen_current (st : State) (i : nat) (email : jsstring) :
  ws_current st = Some i ->
  sockets st !! i = Some (mkSocket CONNECTING email []) ->
  snd (step (NetOpen i) st) = None /\
  sockets (fst (step (NetOpen i) st)) !! i =
    Some (mkSocket OPEN email [subscribe_frame email]).
Proof.
  intros Hcur Hs. unfold step. rewrite Hs. cbn [readyState sub_email].
  unfold onopen. cbn [ws_current set_sockets]. rewrite Hcur.
  unfold ws_send. cbn [sockets set_sockets].
  rewrite list_lookup_alter_eq, Hs. cbn [fmap option_fmap option_map set_readyState readyState].
  cbn [handled fst snd add_log set_sockets sockets].
  split; [reflexivity|].
  rewrite !list_lookup_alter_eq, Hs. reflexivity.
Qed.

(** C8: [connectWebSocket(a)], any inputs but subscriptions, then
    [connectWebSocket(b)]: the one live socket is the new one, it is
    connecting and carries the address [b]; once it opens, the one frame
    sent on it is [{ type: 'subscribe', email: b }]; the socket made for
    [a] is closing or closed, [close()] having been called on it right
    before the new socket was created; and whatever the inputs, no
    reachable state has two live sockets. *)
Theorem connectWebSocket_twice (pre evs : list input) (a b : jsstring) :
  Forall (fun x => is_subscribe x = false) evs ->
  let st0 := fst (run pre init) in
  let st1 := fst (run evs (connectWebSocket a st0)) in
  let st2 := connectWebSocket b st1 in
  let ia := length (sockets st0) in
  let ib := S ia in
  live_sockets st2 = [ib] /\
  ws_current st2 = Some ib /\
  sockets st2 !! ib = Some (mkSocket CONNECTING b []) /\
  sockets (fst (step (NetOpen ib) st2)) !! ib =
    Some (mkSocket OPEN b
            [JObj [(js "type", JStr (js "subscribe")); (js "email", JStr b)]]) /\
  (exists sa, sockets st2 !! ia = Some sa /\ sub_email sa = a /\
              closing_or_closed sa) /\
  log st2 = log st1 ++ [ActClose ia; ActNew ib] /\
  (forall trace, (length (live_sockets (fst (run trace init))) <= 1)%nat).
Proof.
  intros Hevs st0 st1 st2 ia ib.
  assert (H0 : single_live st0) by apply single_live_run, single_live_init.
  set (sta := connectWebSocket a st0) in *.
  assert (Ha : single_live sta) by apply single_live_connectWebSocket, H0.
  assert (Hq : quiet sta st1) by apply quiet_run, Hevs.
  assert (H1 : single_live st1) by (apply (single_live_quiet sta); assumption).
  destruct Hq as (Hcur & Hlen & _ & Hmail).
  assert (Hcur1 : ws_current st1 = Some ia).
  { rewrite Hcur. apply ws_current_connectWebSocket. }
  assert (Hlen1 : length (sockets st1) = ib).
  { rewrite Hlen. apply length_sockets_connectWebSocket. }
  assert (Hsa : exists s, sockets st1 !! ia = Some s /\ sub_email s = a).
  { assert (Hs : sockets sta !! ia = Some (mkSocket CONNECTING a [])).
    { unfold sta, connectWebSocket, ws_new. simpl.
      apply list_lookup_middle. unfold ia.
      destruct (ws_current st0); [symmetry; apply length_sockets_ws_close | reflexivity]. }
    destruct (Hmail ia _ Hs) as (s' & Hs' & E). eauto. }
  assert (Hcur2 : ws_current st2 = Some ib).
  { unfold st2. rewrite ws_current_connectWebSocket, Hlen1. reflexivity. }
  assert (Hb : sockets st2 !! ib = Some (mkSocket CONNECTING b [])).
  { unfold st2, connectWebSocket, ws_new. simpl. rewrite Hcur1.
    apply list_lookup_middle. rewrite length_sockets_ws_close. symmetry. exact Hlen1. }
  split; [|split; [|split; [|split; [|split; [|split]]]]].
  - unfold st2. rewrite live_sockets_connectWebSocket by exact H1.
    rewrite Hlen1. reflexivity.
  - exact Hcur2.
  - exact Hb.
  - apply (step_NetOpen_current st2 ib b Hcur2 Hb).
  - destruct Hsa as (s & Hs & Hmail_s).
    unfold st2, connectWebSocket, ws_new. simpl. rewrite Hcur1.
    assert (Hlt : (ia < length (sockets (ws_close ia st1)))%nat).
    { rewrite length_sockets_ws_close, Hlen1. unfold ib. lia. }
    rewrite lookup_app_l by exact Hlt.
    unfold ws_close. simpl. rewrite list_lookup_alter_eq, Hs. simpl.
    eexists. split; [reflexivity|]. unfold closing_or_closed.
    destruct (readyState s) eqn:R; simpl; rewrite ?R; auto.
  - unfold st2, connectWebSocket, ws_new. simpl. rewrite Hcur1. simpl.
    rewrite length_alter, Hlen1, <- app_assoc. reflexivity.
  - intros trace. apply single_live_at_most_one, single_live_run, single_live_init.
Qed.

Lemma connectWebSocket_twice_witness :
  let st2 := connectWebSocket (js "b@x.com")
               (fst (run [NetOpen 0%nat] (connectWebSocket (js "a@x.com") init))) in
  live_sockets st2 = [1%nat] /\
  ws_current st2 = Some 1%nat /\
  sockets st2 !! 1%nat = Some (mkSocket CONNECTING (js "b@x.com") []) /\
  sockets (fst (step (NetOpen 1%nat) st2)) !! 1%nat =
    Some (mkSocket OPEN (js "b@x.com")
            [JObj [(js "type", JStr (js "subscribe"));
                   (js "email", JStr (js "b@x.com"))]]) /\
  (exists sa, sockets st2 !! 0%nat = Some sa /\ sub_email sa = js "a@x.com" /\
              closing_or_closed sa) /\
  log st2 =
    log (fst (run [NetOpen 0%nat] (connectWebSocket (js "a@x.com") init))) ++
    [ActClose 0%nat; ActNew 1%nat] /\
  (forall trace, (length (live_sockets (fst (run trace init))) <= 1)%nat).
Proof.
  apply (connectWebSocket_twice [] [NetOpen 0%nat] (js "a@x.com") (js "b@x.com")).
  repeat constructor.
Defined.

(** ** Numbers as property names *)

Lemma to_double_small (v : Z) : (0 <= v < 2 ^ 53)%Z -> to_double v = v.
Proof.
  intros [H0 H]. unfold to_double.
  destruct (Z.leb_spec (Z.log2 v - 52) 0) as [_|He]; [reflexivity|].
  exfalso. assert (Hpos : (0 < v)%Z).
  { destruct (Z.eq_dec v 0%Z) as [->|]; [discriminate He | lia]. }
  apply (Z.log2_lt_pow2 v 53 Hpos) in H. lia.
Qed.

Lemma to_double_large (v : Z) : (2 ^ 53 <= v)%Z -> (2 ^ 53 <= to_double v)%Z.
Proof.
  intros H. unfold to_double.
  assert (Hpos : (0 < v)%Z) by lia.
  assert (Hlog : (53 <= Z.log2 v)%Z) by (apply Z.log2_le_pow2; lia).
  destruct (Z.leb_spec (Z.log2 v - 52) 0) as [He|He]; [lia|].
  set (e := (Z.log2 v - 52)%Z) in *.
  assert (Hq : (2 ^ 52 <= Z.shiftr v e)%Z).
  { rewrite Z.shiftr_div_pow2 by lia.
    apply Z.div_le_lower_bound; [apply Z.pow_pos_nonneg; lia|].
    rewrite Z.mul_comm, <- Z.pow_add_r by lia.
    replace (52 + e)%Z with (Z.log2 v) by (unfold e; lia).
    apply Z.log2_spec, Hpos. }
  assert (Hgrow : forall q, (2 ^ 52 <= q)%Z -> (2 ^ 53 <= Z.shiftl q e)%Z).
  { intros q Hq'. rewrite Z.shiftl_mul_pow2 by lia.
    assert (2 <= 2 ^ e)%Z.
    { change 2%Z with (2 ^ 1)%Z at 1. apply Z.pow_le_mono_r; lia. }
    change (2 ^ 53)%Z with (2 ^ 52 * 2)%Z. apply Z.mul_le_mono_nonneg; lia. }
  repeat match goal with |- context [if ?b then _ else _] => destruct b end;
    apply Hgrow; lia.
Qed.

Lemma shortest_small (x : Z) (p : nat) :
  (0 < x < 2 ^ 53)%Z -> shortest x p = x.
Proof.
  intros Hx. induction p as [|p IH]; [reflexivity|].
  cbn [shortest]. cbv zeta.
  set (u := (10 ^ Z.of_nat (S p))%Z).
  assert (Hu : (0 < u)%Z) by (apply Z.pow_pos_nonneg; lia).
  pose proof (Z.mul_div_le x u Hu) as Hlo.
  pose proof (Z.mul_succ_div_gt x u Hu) as Hhi.
  assert (H0 : (0 <= x / u * u)%Z).
  { apply Z.mul_nonneg_nonneg; [apply Z.div_pos|]; lia. }
  rewrite (to_double_small (x / u * u)) by lia.
  assert (Hne : (to_double (x / u * u + u) =? x)%Z = false).
  { apply Z.eqb_neq.
    destruct (Z.lt_ge_cases (x / u * u + u) (2 ^ 53)) as [Hs|Hl].
    - rewrite to_double_small by lia. lia.
    - pose proof (to_double_large _ Hl). lia. }
  rewrite Hne.
  destruct (Z.eqb_spec (x / u * u) x) as [E|_]; [exact E | exact IH].
Qed.

(** Up to 2^53 a number is written with all the digits of its value. *)
Lemma Number_toString_safe (n : Z) :
  (Z.abs n < 2 ^ 53)%Z ->
  Number_toString n = if (n <? 0)%Z then 45 :: decimal (- n) else decimal n.
Proof.
  intros H.
  assert (Hpos : forall p, (Z.pos p < 2 ^ 53)%Z ->
            (let x := to_double (Z.pos p) in
             if (2 ^ 1024 <=? x)%Z then js "Infinity"
             else render (shortest x (length (decimal x) - 1))) = decimal (Z.pos p)).
  { intros p Hp. cbv zeta.
    rewrite to_double_small by lia.
    destruct (Z.leb_spec (2 ^ 1024) (Z.pos p)) as [Hbig|_].
    - exfalso. assert (2 ^ 53 < 2 ^ 1024)%Z by reflexivity. lia.
    - rewrite shortest_small by lia. unfold render.
      destruct (Z.ltb_spec (Z.pos p) (10 ^ 21)) as [_|Hbig]; [reflexivity|].
      exfalso. assert (2 ^ 53 < 10 ^ 21)%Z by reflexivity. lia. }
  destruct n as [|p|p]; [reflexivity| |].
  - apply Hpos. lia.
  - change (Number_toString (Z.neg p)) with
      (45 :: (let x := to_double (Z.pos p) in
              if (2 ^ 1024 <=? x)%Z then js "Infinity"
              else render (shortest x (length (decimal x) - 1)))).
    rewrite Hpos by lia. reflexivity.
Qed.

(** ** Inbound events *)

Lemma is_update_event (m : jsstring) (status : jsval) :
  is_update (update_event m status) m status.
Proof. repeat split. Qed.

Lemma onmessage_update (data : jsval) (m : jsstring) (status : jsval) (st : State) :
  is_update data m status ->
  onmessage (Ok data) st =
  Ok (setVerificationStatus (fun prev => <[m := status]> prev) st).
Proof.
  intros (Ht & Hm & Hs). unfold onmessage. simpl. rewrite Ht. simpl.
  rewrite Hm. simpl. rewrite Hs. reflexivity.
Qed.

Lemma step_message_update (i : nat) (s : Socket) (data : jsval) (m : jsstring)
      (status : jsval) (st : State) :
  sockets st !! i = Some s -> readyState s = OPEN -> is_update data m status ->
  step (NetMessage i (Ok data)) st =
  (setVerificationStatus (fun prev => <[m := status]> prev) st, None).
Proof.
  intros Hs Hr Hu. unfold step.
  rewrite Hs, Hr, (onmessage_update data m status st Hu). reflexivity.
Qed.

Lemma run_updates (i : nat) (s : Socket) (evs : list (jsstring * jsval)) (st : State) :
  sockets st !! i = Some s -> readyState s = OPEN ->
  run (map (fun e => NetMessage i (Ok (update_event e.1 e.2))) evs) st =
  (setVerificationStatus (fun prev => foldl upsert prev evs) st, []).
Proof.
  intros Hs Hr. revert st Hs. induction evs as [|[m v] evs IH]; intros st Hs.
  - destruct st; reflexivity.
  - cbn [map run]. cbn [fst snd].
    rewrite (step_message_update i s _ m v st Hs Hr (is_update_event m v)).
    rewrite IH by exact Hs. reflexivity.
Qed.

(** C7: while the socket is open, a verification-status update for [m]
    stores its status under [m], whether or not [m] had an entry, and
    leaves the entries of all other ids, the sockets and everything else as
    they are; a sequence of updates is applied in order, the later status
    of an id replacing the earlier; and the selection of another message
    removes no entry and changes none but that of the selected id. *)
Theorem verificationStatus_upsert (st : State) (i : nat) (s : Socket) :
  sockets st !! i = Some s -> readyState s = OPEN ->
  (forall data m status,
     is_update data m status ->
     exists st',
       step (NetMessage i (Ok data)) st = (st', None) /\
       verificationStatus st' !! m = Some status /\
       (forall k, k <> m -> verificationStatus st' !! k = verificationStatus st !! k) /\
       sockets st' = sockets st /\ ws_current st' = ws_current st /\
       emailData st' = emailData st) /\
  (forall evs : list (jsstring * jsval),
     run (map (fun e => NetMessage i (Ok (update_event e.1 e.2))) evs) st =
     (setVerificationStatus (fun prev => foldl upsert prev evs) st, [])) /\
  (forall data k v,
     verificationStatus st !! k = Some v ->
     let st' := fst (step (Select data) st) in
     is_Some (verificationStatus st' !! k) /\
     ((forall id, get_prop data (js "id") = Ok id -> ToString id <> k) ->
      verificationStatus st' !! k = Some v)) /\
  verificationStatus
    (fst (run [NetMessage i (Ok (update_event (js "m1") (JStr (js "confirmed"))));
               NetMessage i (Ok (update_event (js "m1") (JStr (js "failed"))))] st))
    !! js "m1" = Some (JStr (js "failed")).
Proof.
  intros Hs Hr. split; [|split; [|split]].
  - intros data m status Hu. eexists. split.
    + apply (step_message_update i s data m status st Hs Hr Hu).
    + simpl. split; [apply lookup_insert_eq|].
      split; [|auto]. intros k Hk. apply lookup_insert_ne. congruence.
  - intros evs. apply (run_updates i s evs st Hs Hr).
  - intros data k v Hk. simpl. unfold fetchEmailDetails_response.
    destruct (get_prop data (js "id")) as [id|e] eqn:Eid; simpl;
      [|split; [rewrite Hk; eauto | intros _; exact Hk]].
    destruct (get_prop data (js "verificationStatus")) as [status|e]; simpl;
      [|split; [rewrite Hk; eauto | intros _; exact Hk]].
    split.
    + rewrite lookup_insert. destruct (decide (ToString id = k)); [eauto|].
      rewrite Hk. eauto.
    + intros Hne. rewrite lookup_insert_ne; [exact Hk|].
      apply Hne. reflexivity.
  - pose proof (run_updates i s
                  [(js "m1", JStr (js "confirmed")); (js "m1", JStr (js "failed"))]
                  st Hs Hr) as H.
    cbn [map fst snd] in H. rewrite H.
    cbn [fst setVerificationStatus verificationStatus foldl upsert snd].
    apply lookup_insert_eq.
Qed.

Lemma verificationStatus_upsert_witness :
  verificationStatus
    (fst (run [NetMessage 0%nat (Ok (update_event (js "m1") (JStr (js "confirmed"))));
               NetMessage 0%nat (Ok (update_event (js "m1") (JStr (js "failed"))))]
              open_state))
    !! js "m1" = Some (JStr (js "failed")).
Proof.
  refine (proj2 (proj2 (proj2
            (verificationStatus_upsert open_state 0%nat
               (mkSocket OPEN (js "a@x.com") [subscribe_frame (js "a@x.com")]) _ _)))).
  - reflexivity.
  - reflexivity.
Defined.

(** C2, as the spec has it, fails twice on an open socket: an event that is
    not JSON makes the handler throw [SyntaxError], and an update without
    [messageId] is not dropped but stored under the key ["undefined"]. *)
Lemma onmessage_malformed_not_dropped :
  step (NetMessage 0%nat (Throw SyntaxError)) open_state =
    (open_state, Some SyntaxError) /\
  get_prop (JObj [(js "type", JStr (js "verification_update"));
                  (js "status", JStr (js "confirmed"))]) (js "messageId") =
    Ok JUndefined /\
  verificationStatus open_state !! js "undefined" = None /\
  verificationStatus
    (fst (step (NetMessage 0%nat
                  (Ok (JObj [(js "type", JStr (js "verification_update"));
                             (js "status", JStr (js "confirmed"))])))
               open_state))
    !! js "undefined" = Some (JStr (js "confirmed")).
Proof. repeat split; vm_compute; reflexivity. Qed.

(** C2, amended: on an open socket, an event with an unrecognised tag (its
    [type] is not the string [verification_update]) changes nothing and
    throws nothing; an event that is not JSON changes nothing either, but
    the [SyntaxError] of [JSON.parse] leaves the handler, as does the
    [TypeError] for the JSON text [null]; an update without [messageId]
    stores its status under the key ["undefined"]. In all these cases the
    sockets, and so the connection state, stay as they are. *)
Theorem onmessage_malformed (st : State) (i : nat) (s : Socket) :
  sockets st !! i = Some s -> readyState s = OPEN ->
  (forall data type,
     get_prop data (js "type") = Ok type ->
     strict_eq_str type (js "verification_update") = false ->
     step (NetMessage i (Ok data)) st = (st, None)) /\
  (forall e, step (NetMessage i (Throw e)) st = (st, Some e)) /\
  step (NetMessage i (Ok JNull)) st = (st, Some TypeError) /\
  (forall data status,
     get_prop data (js "type") = Ok (JStr (js "verification_update")) ->
     get_prop data (js "messageId") = Ok JUndefined ->
     get_prop data (js "status") = Ok status ->
     step (NetMessage i (Ok data)) st =
     (setVerificationStatus (fun prev => <[js "undefined" := status]> prev) st, None)).
Proof.
  intros Hs Hr. unfold step. rewrite Hs, Hr. split; [|split; [|split]].
  - intros data type Ht Hne. unfold onmessage. simpl. rewrite Ht. simpl.
    rewrite Hne. reflexivity.
  - reflexivity.
  - reflexivity.
  - intros data status Ht Hm Hst. unfold onmessage. simpl. rewrite Ht. simpl.
    rewrite Hm. simpl. rewrite Hst. reflexivity.
Qed.

Lemma onmessage_malformed_witness :
  step (NetMessage 0%nat (Ok (JObj [(js "type", JStr (js "ping"))]))) open_state =
  (open_state, None).
Proof.
  refine (proj1 (onmessage_malformed open_state 0%nat
                   (mkSocket OPEN (js "a@x.com") [subscribe_frame (js "a@x.com")])
                   _ _) _ (JStr (js "ping")) _ _);
    reflexivity.
Defined.

(** * Further properties *)

(** ** [getEmailHeaders] on well-formed and ill-formed lists *)

Lemma app_snoc_cases {A} (l pre post : list A) (e e' : A) :
  l ++ [e] = pre ++ e' :: post ->
  (post = [] /\ l = pre /\ e = e') \/
  (exists post', post = post' ++ [e] /\ l = pre ++ e' :: post').
Proof.
  destruct post as [|x post' _] using rev_ind; intros H.
  - left. apply app_inj_tail in H as [-> ->]. auto.
  - right. exists post'.
    rewrite app_comm_cons, app_assoc in H.
    apply app_inj_tail in H as [-> ->]. auto.
Qed.

Section HeadersMore.

Variable toLowerCase : jsstring -> jsstring.

Lemma set_header_string_name (entry : jsval) (hdrs : PlainObject) (s : jsstring) :
  get_prop entry (js "name") = Ok (JStr s) ->
  exists v, get_prop entry (js "value") = Ok v /\
            set_header toLowerCase entry hdrs = Ok (assign (toLowerCase s) v hdrs).
Proof.
  intros H. unfold set_header. rewrite H. simpl.
  destruct entry; try discriminate; simpl; eauto.
Qed.

Lemma set_header_Ok (entry : jsval) (hdrs hdrs' : PlainObject) :
  set_header toLowerCase entry hdrs = Ok hdrs' -> has_string_name entry.
Proof.
  unfold set_header. intros H.
  apply exn_bind_Ok in H as (n & Hn & H).
  apply exn_bind_Ok in H as (v & Hv & H).
  apply exn_bind_Ok in H as (k & Hk & H).
  destruct n; try discriminate. exists s. exact Hn.
Qed.

Lemma header_named_unique (k : jsstring) (entry : jsval) (s : jsstring) :
  get_prop entry (js "name") = Ok (JStr s) ->
  header_named toLowerCase k entry <-> toLowerCase s = k.
Proof.
  intros H. unfold header_named. split.
  - intros (s' & Hs' & <-). congruence.
  - intros <-. eauto.
Qed.

Lemma own_assign (key k : jsstring) (v : jsval) (o : PlainObject) :
  k <> js "__proto__" ->
  own (assign key v o) !! k = if decide (key = k) then Some v else own o !! k.
Proof.
  intros Hk. unfold assign. destruct (decide (key = js "__proto__")) as [->|].
  - destruct (decide (js "__proto__" = k)) as [E|_]; [congruence|].
    destruct (own o !! js "__proto__");
      [|destruct (reaches_proto_setter (prototype o));
        [destruct v; reflexivity|]];
      cbn [set_own own]; apply lookup_insert_ne; congruence.
  - cbn [set_own own]. apply lookup_insert.
Qed.

Lemma assign_other_name (key : jsstring) (v : jsval) (o : PlainObject) :
  key <> js "__proto__" ->
  own (assign key v o) !! js "__proto__" = own o !! js "__proto__" /\
  prototype (assign key v o) = prototype o.
Proof.
  intros Hk. unfold assign. destruct (decide (key = js "__proto__")); [contradiction|].
  cbn [set_own own prototype]. split; [apply lookup_insert_ne, Hk | reflexivity].
Qed.

(** What the loop of [getEmailHeaders] has built after the entries [l]. *)
Lemma forEach_set_header_last (l : list jsval) :
  Forall has_string_name l ->
  exists m,
    forEach (set_header toLowerCase) l ∅ = Ok m /\
    (forall k v,
      k <> js "__proto__" ->
      (own m !! k = Some v <->
       exists pre e post,
         l = pre ++ e :: post /\
         header_named toLowerCase k e /\
         get_prop e (js "value") = Ok v /\
         Forall (fun e' => ~ header_named toLowerCase k e') post)) /\
    (Forall (fun e => ~ header_named toLowerCase (js "__proto__") e) l ->
     own m !! js "__proto__" = None /\ prototype m = ObjectPrototype).
Proof.
  induction l as [|e l IH] using rev_ind; intros Hall.
  - exists ∅. split; [reflexivity|]. split.
    + intros k v _. cbn [own empty PlainObject_empty]. rewrite lookup_empty.
      split; [discriminate|].
      intros (pre & e & post & H & _). destruct pre; discriminate.
    + intros _. split; [apply lookup_empty | reflexivity].
  - apply Forall_app in Hall as [Hl He]. apply Forall_cons in He as [[s Hs] _].
    destruct (IH Hl) as (m & Hm & Hlook & Hproto).
    destruct (set_header_string_name e m s Hs) as (ve & Hve & Hset).
    pose proof (header_named_unique (js "__proto__") e s Hs) as Hnamed_proto.
    exists (assign (toLowerCase s) ve m).
    split; [rewrite forEach_app, Hm; simpl; rewrite Hset; reflexivity|].
    split.
    2:{ intros Hno. apply Forall_app in Hno as [Hno_l Hno_e].
        apply Forall_cons in Hno_e as [Hno_e _].
        destruct (Hproto Hno_l) as [Hown Hp].
        destruct (assign_other_name (toLowerCase s) ve m) as [-> ->].
        - intros E. apply Hno_e, Hnamed_proto, E.
        - auto. }
    intros k v Hk. rewrite own_assign by exact Hk.
    pose proof (header_named_unique k e s Hs) as Hnamed.
    destruct (decide (toLowerCase s = k)) as [Ek|Ek].
    + split.
      * intros [= <-]. exists l, e, []. split; [reflexivity|].
        split; [apply Hnamed, Ek|]. split; [exact Hve | constructor].
      * intros (pre & e' & post & Hsplit & _ & Hv & Hpost).
        apply app_snoc_cases in Hsplit as [(-> & -> & <-) | (post' & -> & _)].
        -- congruence.
        -- apply Forall_app in Hpost as [_ Hlast].
           apply Forall_cons in Hlast as [Hlast _].
           exfalso. apply Hlast, Hnamed, Ek.
    + rewrite Hlook by exact Hk. split.
      * intros (pre & e' & post & -> & Hn & Hv & Hpost).
        exists pre, e', (post ++ [e]). rewrite <- app_assoc. split; [reflexivity|].
        split; [exact Hn|]. split; [exact Hv|].
        apply Forall_app. split; [exact Hpost|]. constructor; [|constructor].
        rewrite Hnamed. exact Ek.
      * intros (pre & e' & post & Hsplit & Hn & Hv & Hpost).
        apply app_snoc_cases in Hsplit as [(-> & -> & <-) | (post' & -> & ->)].
        -- exfalso. apply Ek, Hnamed, Hn.
        -- apply Forall_app in Hpost as [Hpost _]. eauto 8.
Qed.

Lemma forEach_set_header_Ok (l : list jsval) (h : PlainObject) :
  (exists m, forEach (set_header toLowerCase) l h = Ok m) <->
  Forall has_string_name l.
Proof.
  revert h. induction l as [|e l IH]; intros h; simpl.
  - split; [constructor | eauto].
  - split.
    + intros [m H]. apply exn_bind_Ok in H as (h' & He & H).
      constructor; [apply (set_header_Ok e h h' He) | apply (IH h'); eauto].
    + intros H. apply Forall_cons in H as [[s Hs] Hl].
      destruct (set_header_string_name e h s Hs) as (v & _ & ->). simpl.
      apply IH, Hl.
Qed.

Lemma forEach_set_header_error (l : list jsval) (h : PlainObject) (e : error) :
  forEach (set_header toLowerCase) l h = Throw e -> e = TypeError.
Proof.
  revert h. induction l as [|x l IH]; intros h; simpl; [discriminate|].
  destruct (set_header toLowerCase x h) as [h'|e'] eqn:E; simpl.
  - apply IH.
  - intros [= <-]. apply (set_header_TypeError toLowerCase x h e' E).
Qed.

End HeadersMore.

(** An assignment to [__proto__] can still end up as a property of the
    object: after an entry of that name with the value [null] the object
    inherits nothing, the setter included, and the next such entry is
    stored like any other. *)
Example getEmailHeaders_own_proto :
  exists m,
    getEmailHeaders ascii_toLowerCase (Some payload_two_protos) = Ok m /\
    own m !! js "__proto__" = Some (JStr (js "x")) /\
    prototype m = NullPrototype.
Proof. eexists. split; [vm_compute; reflexivity|]. split; reflexivity. Qed.

(** X1: for a header list whose entries all have a string for a name,
    [getEmailHeaders] returns an object whose own property of a name other
    than [__proto__] holds the value of the last entry whose lower-cased
    name is that name, and which has no own property of that name when
    there is no such entry. When no entry is named [__proto__] in lower
    case, the object has no own property of that name and still inherits
    from [Object.prototype]. *)
Theorem getEmailHeaders_last_wins
  (toLowerCase : jsstring -> jsstring) (part : Part) (entries : list jsval) :
  headers part = Some entries ->
  Forall has_string_name entries ->
  exists m,
    getEmailHeaders toLowerCase (Some part) = Ok m /\
    (forall k v,
      k <> js "__proto__" ->
      (own m !! k = Some v <->
       exists pre e post,
         entries = pre ++ e :: post /\
         header_named toLowerCase k e /\
         get_prop e (js "value") = Ok v /\
         Forall (fun e' => ~ header_named toLowerCase k e') post)) /\
    (Forall (fun e => ~ header_named toLowerCase (js "__proto__") e) entries ->
     own m !! js "__proto__" = None /\ prototype m = ObjectPrototype).
Proof.
  intros H Hall. simpl. rewrite H. apply forEach_set_header_last, Hall.
Qed.

Lemma getEmailHeaders_last_wins_witness :
  exists m,
    getEmailHeaders ascii_toLowerCase (Some payload_two_subjects) = Ok m /\
    (forall k v,
      k <> js "__proto__" ->
      (own m !! k = Some v <->
       exists pre e post,
         [JObj [(js "name", JStr (js "Subject")); (js "value", JStr (js "Hi"))];
          JObj [(js "name", JStr (js "subject")); (js "value", JStr (js "Bye"))]] =
           pre ++ e :: post /\
         header_named ascii_toLowerCase k e /\
         get_prop e (js "value") = Ok v /\
         Forall (fun e' => ~ header_named ascii_toLowerCase k e') post)) /\
    (Forall (fun e => ~ header_named ascii_toLowerCase (js "__proto__") e)
       [JObj [(js "name", JStr (js "Subject")); (js "value", JStr (js "Hi"))];
        JObj [(js "name", JStr (js "subject")); (js "value", JStr (js "Bye"))]] ->
     own m !! js "__proto__" = None /\ prototype m = ObjectPrototype).
Proof.
  apply (getEmailHeaders_last_wins ascii_toLowerCase payload_two_subjects _ eq_refl).
  repeat constructor; eexists; reflexivity.
Defined.

(** X2: for a present header list, [getEmailHeaders] returns a mapping
    exactly when every entry has a string for a name; otherwise it throws,
    and what it throws is a [TypeError]. *)
Theorem getEmailHeaders_total_iff
  (toLowerCase : jsstring -> jsstring) (part : Part) (entries : list jsval) :
  headers part = Some entries ->
  ((exists m, getEmailHeaders toLowerCase (Some part) = Ok m) <->
   Forall has_string_name entries) /\
  (forall e, getEmailHeaders toLowerCase (Some part) = Throw e -> e = TypeError).
Proof.
  intros H. simpl. rewrite H. split.
  - apply forEach_set_header_Ok.
  - apply forEach_set_header_error.
Qed.

Lemma getEmailHeaders_total_iff_witness :
  ((exists m, getEmailHeaders ascii_toLowerCase (Some payload_nameless_header) = Ok m) <->
   Forall has_string_name
     [JObj [(js "name", JStr (js "Subject")); (js "value", JStr (js "Hi"))];
      JObj [(js "value", JStr (js "x"))]]) /\
  (forall e, getEmailHeaders ascii_toLowerCase (Some payload_nameless_header) = Throw e ->
             e = TypeError).
Proof.
  exact (getEmailHeaders_total_iff ascii_toLowerCase payload_nameless_header _ eq_refl).
Defined.

(** ** What [extractEmailContent] does not depend on *)

Lemma has_kind_fields (k : kind) (m : jsstring) (b : option Body)
      (ps ps' : option (list Part)) (h h' : option (list jsval)) :
  has_kind k (mkPart m b ps h) = has_kind k (mkPart m b ps' h').
Proof. reflexivity. Qed.

Lemma visited_eq (part : Part) :
  visited part =
  part :: match node_kind part with
          | Some _ => []
          | None =>
              match parts part with
              | Some l => flat_map visited l
              | None => []
              end
          end.
Proof. destruct part; reflexivity. Qed.

Lemma inert_without_kind (k : kind) (part : Part) :
  inert part -> without_kind k part.
Proof.
  unfold inert, without_kind. induction 1 as [|q l Hq _ IH]; [reflexivity|].
  simpl. unfold has_kind at 1. rewrite Hq. exact IH.
Qed.

(** The content of a part with children, from the matches below it. *)
Lemma last_decoded_children (k : kind) (m : jsstring) (b : option Body)
      (l : list Part) (h : option (list jsval)) :
  last_decoded k (visited (mkPart m b (Some l) h)) =
  match node_kind (mkPart m b (Some l) h) with
  | Some _ => if has_kind k (mkPart m b (Some l) h)
              then decoded (mkPart m b (Some l) h) else []
  | None => last_decoded k (flat_map visited l)
  end.
Proof.
  rewrite visited_eq. unfold last_decoded.
  destruct (node_kind (mkPart m b (Some l) h)) eqn:K.
  - simpl. destruct (has_kind k _); reflexivity.
  - simpl. unfold has_kind at 1. rewrite K. reflexivity.
Qed.

Lemma last_decoded_same_children (k : kind) (m : jsstring) (b : option Body)
      (l l' : list Part) (h : option (list jsval)) :
  List.filter (has_kind k) (flat_map visited l) =
  List.filter (has_kind k) (flat_map visited l') ->
  last_decoded k (visited (mkPart m b (Some l) h)) =
  last_decoded k (visited (mkPart m b (Some l') h)).
Proof.
  intros H. rewrite !last_decoded_children.
  change (node_kind (mkPart m b (Some l') h)) with (node_kind (mkPart m b (Some l) h)).
  destruct (node_kind (mkPart m b (Some l) h)); [reflexivity|].
  unfold last_decoded. rewrite H. reflexivity.
Qed.

Lemma extractEmailContent_same_children (m : jsstring) (b : option Body)
      (l l' : list Part) (h : option (list jsval)) :
  (forall k, List.filter (has_kind k) (flat_map visited l) =
             List.filter (has_kind k) (flat_map visited l')) ->
  extractEmailContent (Some (mkPart m b (Some l) h)) =
  extractEmailContent (Some (mkPart m b (Some l') h)).
Proof.
  intros H. rewrite !extractEmailContent_visited.
  rewrite (last_decoded_same_children Plain m b l l' h (H Plain)).
  rewrite (last_decoded_same_children Html m b l l' h (H Html)).
  reflexivity.
Qed.

(** X3: a child in whose tree nothing matches (an attachment, a leaf without
    data, a container of such) has no effect on the extracted content: the
    result is the same with the child and without it, wherever it stands
    among its siblings. *)
Theorem extractEmailContent_ignores_inert
  (m : jsstring) (b : option Body) (h : option (list jsval))
  (l1 l2 : list Part) (x : Part) :
  inert x ->
  extractEmailContent (Some (mkPart m b (Some (l1 ++ x :: l2)) h)) =
  extractEmailContent (Some (mkPart m b (Some (l1 ++ l2)) h)).
Proof.
  intros Hx. apply extractEmailContent_same_children. intros k.
  rewrite !flat_map_app, !List.filter_app. simpl.
  rewrite List.filter_app, (inert_without_kind k x Hx). reflexivity.
Qed.

Lemma extractEmailContent_ignores_inert_witness :
  extractEmailContent
    (Some (container "multipart/mixed"
             ([leaf "text/html" "Qg=="] ++ leaf "application/pdf" "QUJD" ::
              [leaf "text/plain" "QQ=="]))) =
  extractEmailContent
    (Some (container "multipart/mixed"
             ([leaf "text/html" "Qg=="] ++ [leaf "text/plain" "QQ=="]))).
Proof.
  apply extractEmailContent_ignores_inert.
  unfold inert. simpl. repeat constructor.
Defined.

(** X4: the order of two neighbouring children does not matter when the
    tree of the one holds no [text/html] match and the tree of the other no
    [text/plain] match: text and HTML are collected independently. *)
Theorem extractEmailContent_swap
  (m : jsstring) (b : option Body) (h : option (list jsval))
  (l1 l2 : list Part) (x y : Part) :
  without_kind Html x -> without_kind Plain y ->
  extractEmailContent (Some (mkPart m b (Some (l1 ++ x :: y :: l2)) h)) =
  extractEmailContent (Some (mkPart m b (Some (l1 ++ y :: x :: l2)) h)).
Proof.
  intros Hx Hy. apply extractEmailContent_same_children. intros k.
  rewrite !flat_map_app, !List.filter_app. simpl.
  rewrite !List.filter_app. unfold without_kind in Hx, Hy.
  destruct k; rewrite ?Hx, ?Hy, ?app_nil_r; reflexivity.
Qed.

Lemma extractEmailContent_swap_witness :
  extractEmailContent
    (Some (container "multipart/alternative"
             ([] ++ leaf "text/plain" "QQ==" :: leaf "text/html" "Qg==" :: []))) =
  extractEmailContent
    (Some (container "multipart/alternative"
             ([] ++ leaf "text/html" "Qg==" :: leaf "text/plain" "QQ==" :: []))).
Proof.
  apply extractEmailContent_swap; reflexivity.
Defined.

(** X5: a part without usable content of its own and with a single child
    gives the content of that child: nesting a message one level deeper
    changes nothing. *)
Theorem extractEmailContent_wrapper (w p : Part) :
  truthy (body_data w) = false -> parts w = Some [p] ->
  extractEmailContent (Some w) = extractEmailContent (Some p).
Proof.
  intros Hb Hp. rewrite !extractEmailContent_visited.
  assert (K : node_kind w = None).
  { unfold node_kind. rewrite Hb, !andb_false_r. reflexivity. }
  rewrite (visited_eq w), K, Hp. cbn [flat_map]. rewrite app_nil_r.
  assert (Hk : forall k, has_kind k w = false)
    by (intros k; unfold has_kind; rewrite K; reflexivity).
  unfold last_decoded. cbn [List.filter]. rewrite !Hk. reflexivity.
Qed.

Lemma extractEmailContent_wrapper_witness :
  extractEmailContent (Some (container "multipart/related" [two_plain_leaves])) =
  extractEmailContent (Some two_plain_leaves).
Proof.
  apply extractEmailContent_wrapper; reflexivity.
Defined.

(** ** The shape of the URL that [extractVerifyUrl] returns *)

Lemma ci_eq_length (a b : jsstring) : ci_eq a b -> length a = length b.
Proof.
  unfold ci_eq. intros H. apply (f_equal length) in H.
  rewrite !length_map in H. exact H.
Qed.

Lemma url_at_shape (s u : jsstring) :
  url_at s u ->
  exists rest,
    s = u ++ rest /\ starts_outside rest /\
    Forall (fun x => url_char x = true) u /\ (14 <= length u)%nat.
Proof.
  intros (scheme & chars & rest & -> & -> & Hscheme & Hchars & Hout & Hkw).
  exists rest. split; [rewrite <- !app_assoc; reflexivity|].
  split; [exact Hout|]. split.
  - apply Forall_app. split.
    + destruct Hscheme as [H|H]; apply (ci_eq_letters _ _ H);
        vm_compute; repeat constructor; discriminate.
    + apply Forall_app. split; [|exact Hchars].
      repeat constructor.
  - destruct Hkw as (pre & kw & post & -> & Hne & Hk).
    rewrite !length_app.
    assert (Hs : (4 <= length scheme)%nat).
    { destruct Hscheme as [H|H]; apply ci_eq_length in H; rewrite H; simpl; lia. }
    assert (Hw : (6 <= length kw)%nat).
    { destruct Hk as [H|[H|H]]; apply ci_eq_length in H; rewrite H; simpl; lia. }
    assert (Hp : (1 <= length pre)%nat) by (destruct pre; [contradiction | simpl; lia]).
    change (length (js "://")) with 3%nat. lia.
Qed.

(** X6: a URL that [extractVerifyUrl] returns stands in the search text as
    it is, is made of characters other than white space, [<], [>] and the
    double quote only, ends where the text ends or such a character
    follows, and has 14 code units or more. *)
Theorem extractVerifyUrl_result_shape (email : Message) (u : jsstring) :
  extractVerifyUrl (Some email) = Ok (Some u) ->
  exists c pre post,
    extractEmailContent (payload email) = Ok c /\
    textToSearch c = pre ++ u ++ post /\
    starts_outside post /\
    Forall (fun x => url_char x = true) u /\
    (14 <= length u)%nat.
Proof.
  intros H. destruct (extractEmailContent_total (payload email)) as [c Hc].
  rewrite (extractVerifyUrl_leftmost email c Hc) in H. injection H as H.
  pose proof (leftmost_is_leftmost_url (textToSearch c)) as L.
  rewrite H in L. simpl in L. destruct L as (pre & post & Ht & Hu & _).
  apply url_at_shape in Hu as (rest & -> & Hout & Hall & Hlen).
  exists c, pre, rest. auto.
Qed.

Lemma extractVerifyUrl_result_shape_witness :
  exists c pre post,
    extractEmailContent
      (payload (plain_message "Y2xpY2sgaHR0cDovL3gudGVzdC92ZXJpZnk_dG9rPTEgbm93")) = Ok c /\
    textToSearch c = pre ++ js "http://x.test/verify?tok=1" ++ post /\
    starts_outside post /\
    Forall (fun x => url_char x = true) (js "http://x.test/verify?tok=1") /\
    (14 <= length (js "http://x.test/verify?tok=1"))%nat.
Proof.
  apply (extractVerifyUrl_result_shape
           (plain_message "Y2xpY2sgaHR0cDovL3gudGVzdC92ZXJpZnk_dG9rPTEgbm93")).
  vm_compute. reflexivity.
Defined.

(** ** Invariants of the connection handling *)

Lemma sockets_onmessage (event_data : exn jsval) (st st' : State) :
  onmessage event_data st = Ok st' -> sockets st' = sockets st.
Proof.
  unfold onmessage. intros H.
  apply exn_bind_Ok in H as (data & _ & H).
  apply exn_bind_Ok in H as (ty & _ & H).
  destruct (strict_eq_str ty _).
  - apply exn_bind_Ok in H as (m & _ & H).
    apply exn_bind_Ok in H as (s & _ & H).
    injection H as <-. reflexivity.
  - injection H as <-. reflexivity.
Qed.

Lemma sockets_fetchEmailDetails_response (data : jsval) (st st' : State) :
  fetchEmailDetails_response data st = Ok st' -> sockets st' = sockets st.
Proof.
  unfold fetchEmailDetails_response. intros H.
  apply exn_bind_Ok in H as (k & _ & H).
  apply exn_bind_Ok in H as (v & _ & H).
  injection H as <-. reflexivity.
Qed.

Lemma frames_ok_alter (f : Socket -> Socket) (i : nat) (st : State) :
  (forall s, frames_ok s -> frames_ok (f s)) ->
  (forall j s, sockets st !! j = Some s -> frames_ok s) ->
  forall j s, sockets (set_sockets (alter f i) st) !! j = Some s -> frames_ok s.
Proof.
  intros Hf Hall j s. simpl. rewrite list_lookup_alter.
  destruct (decide (i = j)) as [->|]; [|apply Hall].
  destruct (sockets st !! j) as [s0|] eqn:E; simpl; [|discriminate].
  intros [= <-]. apply Hf, (Hall j s0 E).
Qed.

Lemma frames_ok_set_readyState (r : ReadyState) (s : Socket) :
  r <> CONNECTING -> frames_ok s -> frames_ok (set_readyState r s).
Proof.
  intros Hr [_ H]. split; [intros E; simpl in E; contradiction | exact H].
Qed.

Lemma frames_ok_ws_close (i : nat) (st : State) :
  (forall j s, sockets st !! j = Some s -> frames_ok s) ->
  forall j s, sockets (ws_close i st) !! j = Some s -> frames_ok s.
Proof.
  intros Hall. unfold ws_close.
  change (sockets (add_log (ActClose i) ?x)) with (sockets x).
  apply frames_ok_alter; [|exact Hall].
  intros s Hs. destruct (readyState s) eqn:R; try exact Hs;
    apply frames_ok_set_readyState; [discriminate | exact Hs | discriminate | exact Hs].
Qed.

Lemma frames_ok_connectWebSocket (email : jsstring) (st : State) :
  (forall j s, sockets st !! j = Some s -> frames_ok s) ->
  forall j s, sockets (connectWebSocket email st) !! j = Some s -> frames_ok s.
Proof.
  intros Hall j s. unfold connectWebSocket, ws_new. simpl.
  set (st1 := match ws_current st with Some i => ws_close i st | None => st end).
  assert (H1 : forall j s, sockets st1 !! j = Some s -> frames_ok s).
  { unfold st1. destruct (ws_current st); [apply frames_ok_ws_close|]; exact Hall. }
  intros H. apply lookup_app_Some in H as [H | [_ H]]; [apply (H1 j s H)|].
  apply list_lookup_singleton_Some in H as [_ <-].
  split; [reflexivity | left; reflexivity].
Qed.

(** The step of [NetOpen] on the current, connecting socket. *)
Lemma step_NetOpen_connecting (st : State) (i : nat) (s : Socket) :
  ws_current st = Some i -> sockets st !! i = Some s ->
  readyState s = CONNECTING ->
  step (NetOpen i) st =
  (add_log (ActSend i (subscribe_frame (sub_email s)))
     (set_sockets
        (alter (fun s0 => {| readyState := readyState s0; sub_email := sub_email s0;
                             sent := sent s0 ++ [subscribe_frame (sub_email s)] |}) i)
        (set_sockets (alter (set_readyState OPEN) i) st)), None).
Proof.
  intros Hcur Hs Hr. unfold step. rewrite Hs, Hr.
  unfold onopen. cbn [ws_current set_sockets]. rewrite Hcur.
  unfold ws_send. cbn [sockets set_sockets].
  rewrite list_lookup_alter_eq, Hs. reflexivity.
Qed.

Lemma frames_ok_NetOpen (i : nat) (st : State) :
  single_live st ->
  (forall j s, sockets st !! j = Some s -> frames_ok s) ->
  snd (step (NetOpen i) st) = None /\
  forall j s, sockets (fst (step (NetOpen i) st)) !! j = Some s -> frames_ok s.
Proof.
  intros Hlive Hall.
  destruct (sockets st !! i) as [s|] eqn:Hs;
    [|unfold step; rewrite Hs; split; [reflexivity | exact Hall]].
  destruct (readyState s) eqn:Hr;
    try (unfold step; rewrite Hs, Hr; split; [reflexivity | exact Hall]).
  assert (Hcur : ws_current st = Some i).
  { apply Hlive. unfold live_at, live. rewrite Hs, Hr. reflexivity. }
  rewrite (step_NetOpen_connecting st i s Hcur Hs Hr).
  split; [reflexivity|]. cbn [fst].
  change (sockets (add_log ?a ?y)) with (sockets y).
  intros j s'. cbn [sockets set_sockets]. rewrite !list_lookup_alter.
  destruct (decide (i = j)) as [<-|]; [|apply Hall].
  rewrite Hs. destruct (decide (i = i)); [|contradiction].
  cbn [fmap option_fmap option_map]. intros E.
  injection E as E. subst s'. destruct (Hall i s Hs) as [H0 _].
  split; [discriminate|]. right. cbn [sent sub_email set_readyState].
  rewrite (H0 Hr). reflexivity.
Qed.

Lemma frames_ok_step (x : input) (st : State) :
  single_live st ->
  (forall j s, sockets st !! j = Some s -> frames_ok s) ->
  forall j s, sockets (fst (step x st)) !! j = Some s -> frames_ok s.
Proof.
  intros Hlive Hall.
  destruct x as [email|i|i d|i|i|d|]; cbn [step fst].
  - apply frames_ok_connectWebSocket, Hall.
  - apply (frames_ok_NetOpen i st Hlive Hall).
  - unfold step. destruct (sockets st !! i) as [s|]; [|exact Hall].
    destruct (readyState s); try exact Hall.
    destruct (onmessage d st) as [st'|e] eqn:E; simpl; [|exact Hall].
    rewrite (sockets_onmessage d st st' E). exact Hall.
  - exact Hall.
  - apply frames_ok_alter; [|exact Hall].
    intros s. apply frames_ok_set_readyState. discriminate.
  - destruct (fetchEmailDetails_response d st) as [st'|e] eqn:E; simpl; [|exact Hall].
    rewrite (sockets_fetchEmailDetails_response d st st' E). exact Hall.
  - unfold unmount. destruct (ws_current st); [apply frames_ok_ws_close|]; exact Hall.
Qed.

Lemma frames_ok_run (xs : list input) (st : State) :
  single_live st ->
  (forall j s, sockets st !! j = Some s -> frames_ok s) ->
  forall j s, sockets (fst (run xs st)) !! j = Some s -> frames_ok s.
Proof.
  revert st. induction xs as [|x xs IH]; intros st Hlive Hall; [exact Hall|].
  rewrite run_cons. apply IH.
  - apply single_live_step, Hlive.
  - apply (frames_ok_step x st Hlive Hall).
Qed.

(** X7: whatever the inputs, each socket has been sent nothing while it
    connects and afterwards at most one frame, the subscription for the
    address [connectWebSocket] was called with; and [onopen] never throws,
    the socket it sends on being open. *)
Theorem one_subscription_per_socket (trace : list input) :
  (forall i s, sockets (fst (run trace init)) !! i = Some s -> frames_ok s) /\
  (forall i, snd (step (NetOpen i) (fst (run trace init))) = None).
Proof.
  assert (Hlive : single_live (fst (run trace init)))
    by apply single_live_run, single_live_init.
  assert (Hall : forall i s, sockets (fst (run trace init)) !! i = Some s -> frames_ok s).
  { apply frames_ok_run; [apply single_live_init|].
    intros j s H. simpl in H. rewrite lookup_nil in H. discriminate. }
  split; [exact Hall|]. intros i.
  apply (frames_ok_NetOpen i _ Hlive Hall).
Qed.

(** X8: a message that arrives on a socket other than [ws.current] changes
    nothing and throws nothing, whatever it holds: once
    [connectWebSocket] has replaced a socket, its updates are lost. *)
Theorem stale_socket_ignored (trace : list input) (i : nat) (event_data : exn jsval) :
  ws_current (fst (run trace init)) <> Some i ->
  step (NetMessage i event_data) (fst (run trace init)) = (fst (run trace init), None).
Proof.
  intros Hne.
  assert (Hlive : single_live (fst (run trace init)))
    by apply single_live_run, single_live_init.
  unfold step. destruct (sockets _ !! i) as [s|] eqn:Hs; [|reflexivity].
  destruct (readyState s) eqn:Hr; try reflexivity.
  exfalso. apply Hne, Hlive. unfold live_at, live. rewrite Hs, Hr. reflexivity.
Qed.

Lemma stale_socket_ignored_witness :
  step (NetMessage 0%nat (Ok (update_event (js "m1") (JStr (js "failed")))))
       (fst (run [Subscribe (js "a@x.com"); NetOpen 0%nat; Subscribe (js "b@x.com")] init)) =
  (fst (run [Subscribe (js "a@x.com"); NetOpen 0%nat; Subscribe (js "b@x.com")] init), None).
Proof.
  apply (stale_socket_ignored
           [Subscribe (js "a@x.com"); NetOpen 0%nat; Subscribe (js "b@x.com")] 0%nat).
  vm_compute. discriminate.
Defined.

(** ** After the cleanup *)

Lemma all_dead_unmount (st : State) : single_live st -> all_dead (unmount st).
Proof.
  intros Hlive k. unfold unmount. destruct (ws_current st) as [i|] eqn:E.
  - rewrite live_at_ws_close. destruct (decide (i = k)); [reflexivity|].
    destruct (live_at st k) eqn:L; [|reflexivity].
    apply Hlive in L. congruence.
  - destruct (live_at st k) eqn:L; [|reflexivity].
    apply Hlive in L. congruence.
Qed.

Lemma all_dead_live_sockets (st : State) : all_dead st -> live_sockets st = [].
Proof.
  intros H. unfold live_sockets. apply filter_none, Forall_forall.
  intros i _. rewrite H. discriminate.
Qed.

Lemma all_dead_step (x : input) (st : State) :
  is_network x = true -> all_dead st ->
  all_dead (fst (step x st)) /\
  verificationStatus (fst (step x st)) = verificationStatus st /\
  snd (step x st) = None.
Proof.
  intros Hx Hdead.
  assert (Hno : forall i s, sockets st !! i = Some s -> live s = false).
  { intros i s Hs. specialize (Hdead i). unfold live_at in Hdead.
    rewrite Hs in Hdead. exact Hdead. }
  destruct x as [email|i|i d|i|i|d|]; try discriminate; unfold step.
  - destruct (sockets st !! i) as [s|] eqn:Hs; [|auto].
    specialize (Hno i s Hs). unfold live in Hno.
    destruct (readyState s); try discriminate; auto.
  - destruct (sockets st !! i) as [s|] eqn:Hs; [|auto].
    specialize (Hno i s Hs). unfold live in Hno.
    destruct (readyState s); try discriminate; auto.
  - auto.
  - split; [|auto]. intros k. cbn [fst]. rewrite live_at_alter.
    destruct (decide (i = k)); [|apply Hdead].
    destruct (sockets st !! i); reflexivity.
Qed.

Lemma all_dead_run (xs : list input) (st : State) :
  Forall (fun x => is_network x = true) xs -> all_dead st ->
  all_dead (fst (run xs st)) /\
  verificationStatus (fst (run xs st)) = verificationStatus st /\
  snd (run xs st) = [].
Proof.
  intros Hxs. revert st. induction Hxs as [|x xs Hx _ IH]; intros st Hdead; [auto|].
  destruct (all_dead_step x st Hx Hdead) as (H1 & H2 & H3).
  destruct (IH _ H1) as (K1 & K2 & K3).
  rewrite run_cons. split; [exact K1|]. split; [congruence|].
  simpl. destruct (step x st) as [st1 e]. simpl in *. subst e.
  destruct (run xs st1) as [st2 es]. simpl in *. exact K3.
Qed.

(** X9: once the component has unmounted, no socket is connecting or open,
    and whatever the network delivers afterwards (open, message, error or
    close events) leaves the verification statuses as they were, throws
    nothing and brings no socket back to life. *)
Theorem unmount_stops_updates (trace evs : list input) :
  Forall (fun x => is_network x = true) evs ->
  let st := unmount (fst (run trace init)) in
  live_sockets st = [] /\
  live_sockets (fst (run evs st)) = [] /\
  verificationStatus (fst (run evs st)) = verificationStatus st /\
  snd (run evs st) = [].
Proof.
  intros Hevs st.
  assert (Hdead : all_dead st).
  { apply all_dead_unmount, single_live_run, single_live_init. }
  destruct (all_dead_run evs st Hevs Hdead) as (H1 & H2 & H3).
  split; [apply all_dead_live_sockets, Hdead|].
  split; [apply all_dead_live_sockets, H1|]. auto.
Qed.

Lemma unmount_stops_updates_witness :
  let st := unmount (fst (run [Subscribe (js "a@x.com"); NetOpen 0%nat] init)) in
  live_sockets st = [] /\
  live_sockets
    (fst (run [NetMessage 0%nat (Ok (update_event (js "m1") (JStr (js "failed"))));
               NetClose 0%nat] st)) = [] /\
  verificationStatus
    (fst (run [NetMessage 0%nat (Ok (update_event (js "m1") (JStr (js "failed"))));
               NetClose 0%nat] st)) = verificationStatus st /\
  snd (run [NetMessage 0%nat (Ok (update_event (js "m1") (JStr (js "failed"))));
            NetClose 0%nat] st) = [].
Proof.
  apply (unmount_stops_updates [Subscribe (js "a@x.com"); NetOpen 0%nat]).
  repeat constructor.
Defined.

(** ** The verification statuses over time *)

Lemma verificationStatus_connectWebSocket (email : jsstring) (st : State) :
  verificationStatus (connectWebSocket email st) = verificationStatus st.
Proof. unfold connectWebSocket. destruct (ws_current st); reflexivity. Qed.

Lemma verificationStatus_NetOpen (i : nat) (st : State) :
  verificationStatus (fst (step (NetOpen i) st)) = verificationStatus st.
Proof.
  unfold step. destruct (sockets st !! i) as [s|]; [|reflexivity].
  destruct (readyState s); try reflexivity.
  unfold onopen. cbn [ws_current set_sockets].
  destruct (ws_current st) as [j|]; [|reflexivity].
  unfold ws_send. destruct (_ !! j) as [s'|]; [|reflexivity].
  destruct (readyState s'); reflexivity.
Qed.

Lemma verificationStatus_connection_input (x : input) (st : State) :
  is_connection_input x = true ->
  verificationStatus (fst (step x st)) = verificationStatus st.
Proof.
  destruct x as [email|i|i d|i|i|d|]; try discriminate; intros _.
  - apply verificationStatus_connectWebSocket.
  - apply verificationStatus_NetOpen.
  - reflexivity.
  - reflexivity.
  - simpl. unfold unmount. destruct (ws_current st); reflexivity.
Qed.

Lemma verificationStatus_step_keeps (x : input) (st : State) (k : jsstring) :
  is_Some (verificationStatus st !! k) ->
  is_Some (verificationStatus (fst (step x st)) !! k).
Proof.
  intros Hk. destruct (is_connection_input x) eqn:Hx.
  - rewrite verificationStatus_connection_input by exact Hx. exact Hk.
  - destruct x as [email|i|i d|i|i|d|]; try discriminate; unfold step.
    + destruct (sockets st !! i) as [s|]; [|exact Hk].
      destruct (readyState s); try exact Hk.
      unfold onmessage.
      destruct d as [data|e]; simpl; [|exact Hk].
      destruct (get_prop data (js "type")) as [ty|e]; simpl; [|exact Hk].
      destruct (strict_eq_str ty _); [|exact Hk].
      destruct (get_prop data (js "messageId")) as [m|e]; simpl; [|exact Hk].
      destruct (get_prop data (js "status")) as [v|e]; simpl; [|exact Hk].
      apply lookup_insert_is_Some. destruct (decide (ToString m = k)); auto.
    + unfold fetchEmailDetails_response.
      destruct (get_prop d (js "id")) as [m|e]; simpl; [|exact Hk].
      destruct (get_prop d (js "verificationStatus")) as [v|e]; simpl; [|exact Hk].
      apply lookup_insert_is_Some. destruct (decide (ToString m = k)); auto.
Qed.

(** X10: the verification statuses are a cumulative cache. No input ever
    removes the entry of a message id, and the inputs that concern the
    connection (subscribing, open, error and close events, unmounting) do
    not touch the mapping at all. *)
Theorem verificationStatus_cumulative (trace : list input) (st : State) :
  (forall k, is_Some (verificationStatus st !! k) ->
             is_Some (verificationStatus (fst (run trace st)) !! k)) /\
  (Forall (fun x => is_connection_input x = true) trace ->
   verificationStatus (fst (run trace st)) = verificationStatus st).
Proof.
  split.
  - revert st. induction trace as [|x xs IH]; intros st k Hk; [exact Hk|].
    rewrite run_cons. apply IH, verificationStatus_step_keeps, Hk.
  - intros H. revert st. induction H as [|x xs Hx _ IH]; intros st; [reflexivity|].
    rewrite run_cons, IH. apply verificationStatus_connection_input, Hx.
Qed.

Lemma verificationStatus_cumulative_witness :
  verificationStatus
    (fst (run [Subscribe (js "b@x.com"); NetOpen 1%nat; Unmount] open_state)) =
  verificationStatus open_state.
Proof.
  apply (proj2 (verificationStatus_cumulative
                  [Subscribe (js "b@x.com"); NetOpen 1%nat; Unmount] open_state)).
  repeat constructor.
Defined.

(** ** [decodeContent] on base64url text *)

Lemma list_ind3 {A} (P : list A -> Prop) :
  P [] -> (forall a, P [a]) -> (forall a b, P [a; b]) ->
  (forall a b c l, P l -> P (a :: b :: c :: l)) ->
  forall l, P l.
Proof.
  intros H0 H1 H2 H3.
  assert (H : forall l, P l /\ (forall a, P (a :: l)) /\ (forall a b, P (a :: b :: l))).
  { induction l as [|x l (IH0 & IH1 & IH2)]; [auto|].
    split; [apply IH1|]. split; [intros a; apply IH2|].
    intros a b. apply H3, IH0. }
  intros l. apply H.
Qed.

Lemma replace_char_to_standard (s : jsstring) :
  replace_char 95 47 (replace_char 45 43 s) = map to_standard s.
Proof. unfold replace_char. rewrite map_map. reflexivity. Qed.

Lemma sextet_char (v : N) :
  v < 64 -> Base64.sextet (to_standard (Base64url.char v)) = Some v.
Proof.
  intros Hv. destruct v as [|p]; [reflexivity|].
  do 6 (destruct p as [p|p|]; try reflexivity); lia.
Qed.

Lemma groups_bound (bs : list N) :
  Forall (fun b => b < 256) bs -> Forall (fun v => v < 64) (Base64url.groups bs).
Proof.
  induction bs as [|a|a b|a b c l IH] using list_ind3; intros H.
  - constructor.
  - apply Forall_cons in H as [Ha _]. simpl. repeat constructor; div_lia.
  - apply Forall_cons in H as [Ha H]. apply Forall_cons in H as [Hb _].
    simpl. repeat constructor; div_lia.
  - apply Forall_cons in H as [Ha H]. apply Forall_cons in H as [Hb H].
    apply Forall_cons in H as [Hc H].
    cbn [Base64url.groups]. repeat (constructor; [div_lia|]). apply IH, H.
Qed.

Lemma bytes_groups (bs : list N) :
  Forall (fun b => b < 256) bs -> Base64.bytes (Base64url.groups bs) = bs.
Proof.
  induction bs as [|a|a b|a b c l IH] using list_ind3; intros H.
  - reflexivity.
  - apply Forall_cons in H as [Ha _]. cbn [Base64url.groups Base64.bytes].
    f_equal. div_lia.
  - apply Forall_cons in H as [Ha H]. apply Forall_cons in H as [Hb _].
    cbn [Base64url.groups Base64.bytes]. cbv zeta.
    f_equal; [div_lia|]. f_equal. div_lia.
  - apply Forall_cons in H as [Ha H]. apply Forall_cons in H as [Hb H].
    apply Forall_cons in H as [Hc H].
    cbn [Base64url.groups Base64.bytes]. cbv zeta. rewrite (IH H).
    f_equal; [div_lia|]. f_equal; [div_lia|]. f_equal. div_lia.
Qed.

Lemma sextets_chars (vs : list N) :
  Forall (fun v => v < 64) vs ->
  Base64.sextets (map to_standard (map Base64url.char vs)) = Some vs.
Proof.
  induction 1 as [|v vs Hv _ IH]; [reflexivity|].
  simpl. rewrite (sextet_char v Hv), IH. reflexivity.
Qed.

Lemma length_groups (bs : list N) :
  (N.of_nat (length (Base64url.groups bs)) mod 4 = 0 /\ Base64url.padding bs = []) \/
  (N.of_nat (length (Base64url.groups bs)) mod 4 = 2 /\ Base64url.padding bs = [61; 61]) \/
  (N.of_nat (length (Base64url.groups bs)) mod 4 = 3 /\ Base64url.padding bs = [61]).
Proof.
  induction bs as [|a|a b|a b c l IH] using list_ind3.
  - left. split; reflexivity.
  - right. left. split; reflexivity.
  - right. right. split; reflexivity.
  - cbn [Base64url.groups Base64url.padding length].
    replace (N.of_nat (S (S (S (S (length (Base64url.groups l)))))) mod 4)
      with (N.of_nat (length (Base64url.groups l)) mod 4) by div_lia.
    exact IH.
Qed.

(** A text that ends with a character other than [=], with none, one or
    two [=] after it. *)
Lemma strip_padding_body (body : jsstring) (c : N) :
  c <> 61 ->
  Base64.strip_padding (body ++ [c]) = body ++ [c] /\
  Base64.strip_padding ((body ++ [c]) ++ [61]) = body ++ [c] /\
  Base64.strip_padding ((body ++ [c]) ++ [61; 61]) = body ++ [c].
Proof.
  intros Hc. unfold Base64.strip_padding. repeat split.
  - rewrite rev_app_distr. simpl.
    destruct c as [|p]; [reflexivity|].
    do 6 (destruct p as [p|p|]; try reflexivity). congruence.
  - rewrite !rev_app_distr. simpl.
    assert (E : rev (c :: rev body) = body ++ [c])
      by (simpl; rewrite rev_involutive; reflexivity).
    destruct c as [|p]; [exact E|].
    do 6 (destruct p as [p|p|]; try exact E). congruence.
  - rewrite !rev_app_distr. simpl.
    rewrite rev_involutive. reflexivity.
Qed.

Lemma sextets_last (body : jsstring) (c : N) :
  Base64.sextets (body ++ [c]) <> None -> Base64.sextet c <> None.
Proof.
  induction body as [|y body IH]; simpl; intros H Hc.
  - rewrite Hc in H. apply H. reflexivity.
  - apply IH; [|exact Hc]. intros E. rewrite E in H. apply H.
    destruct (Base64.sextet y); reflexivity.
Qed.

Lemma sextet_not_padding (c : N) : Base64.sextet c <> None -> c <> 61.
Proof. intros H ->. apply H. reflexivity. Qed.

Lemma encode_no_whitespace (padded : bool) (bs : list N) :
  Forall (fun b => b < 256) bs ->
  Forall (fun c => Base64.is_ascii_whitespace c = false)
         (map to_standard (Base64url.encode padded bs)).
Proof.
  intros H. unfold Base64url.encode. rewrite map_app. apply Forall_app. split.
  - apply groups_bound in H. induction H as [|v vs Hv _ IH]; [constructor|].
    simpl. constructor; [|exact IH].
    apply sextet_not_whitespace. rewrite (sextet_char v Hv). discriminate.
  - destruct padded; [|constructor].
    destruct (length_groups bs) as [[_ ->] | [[_ ->] | [_ ->]]];
      repeat constructor.
Qed.

Lemma map_to_standard_padding (bs : list N) :
  map to_standard (Base64url.padding bs) = Base64url.padding bs.
Proof.
  destruct (length_groups bs) as [[_ ->] | [[_ ->] | [_ ->]]]; reflexivity.
Qed.

Lemma groups_nonempty (bs : list N) : bs <> [] -> Base64url.groups bs <> [].
Proof. destruct bs as [|a [|b [|c l]]]; [contradiction | discriminate..]. Qed.

(** [atob] undoes the encoding, once the two characters are substituted. *)
Lemma atob_encode (padded : bool) (bs : list N) :
  bs <> [] -> Forall (fun b => b < 256) bs ->
  atob (map to_standard (Base64url.encode padded bs)) = Ok bs.
Proof.
  intros Hne Hbs. unfold atob, Base64.forgiving_decode. cbv zeta.
  rewrite (filter_all _ _ (encode_no_whitespace padded bs Hbs)).
  unfold Base64url.encode. rewrite map_app.
  replace (map to_standard (if padded then Base64url.padding bs else []))
    with (if padded then Base64url.padding bs else [])
    by (destruct padded; [symmetry; apply map_to_standard_padding | reflexivity]).
  set (X := map to_standard (map Base64url.char (Base64url.groups bs))).
  assert (Hsext : Base64.sextets X = Some (Base64url.groups bs))
    by apply sextets_chars, groups_bound, Hbs.
  assert (Hlen : length X = length (Base64url.groups bs))
    by (unfold X; rewrite !length_map; reflexivity).
  assert (Hlast : exists body c, X = body ++ [c] /\ c <> 61).
  { assert (HX : X <> []).
    { intros E. apply (f_equal length) in E. rewrite Hlen in E.
      apply (groups_nonempty bs Hne). destruct (Base64url.groups bs); [reflexivity | discriminate]. }
    destruct (exists_last HX) as (body & c & E). exists body, c. split; [exact E|].
    apply sextet_not_padding, (sextets_last body c).
    rewrite <- E, Hsext. discriminate. }
  destruct Hlast as (body & c & HX & Hc).
  destruct (strip_padding_body body c Hc) as (S0 & S1 & S2).
  rewrite <- HX in S0, S1, S2.
  match goal with
  | |- context [Base64.sextets ?d] => assert (Hdata : d = X)
  end.
  { destruct padded.
    - destruct (length_groups bs) as [[L ->] | [[L ->] | [L ->]]].
      + rewrite app_nil_r, Hlen, L. exact S0.
      + rewrite length_app, Hlen. simpl length.
        replace (N.of_nat (length (Base64url.groups bs) + 2) mod 4) with 0 by div_lia.
        exact S2.
      + rewrite length_app, Hlen. simpl length.
        replace (N.of_nat (length (Base64url.groups bs) + 1) mod 4) with 0 by div_lia.
        exact S1.
    - rewrite app_nil_r. destruct (_ =? 0); [exact S0 | reflexivity]. }
  rewrite Hdata, Hlen, Hsext.
  destruct (length_groups bs) as [[L _] | [[L _] | [L _]]]; rewrite L; simpl;
    rewrite (bytes_groups bs Hbs); reflexivity.
Qed.

Lemma strip_trailing_space_plain (s : jsstring) :
  no_trailing_blank s = true -> QuotedPrintable.strip_trailing_space s = s.
Proof.
  induction s as [|c t IH]; [reflexivity|].
  cbn [no_trailing_blank QuotedPrintable.strip_trailing_space].
  intros H. apply andb_prop in H as [H1 H2]. apply negb_true_iff in H1.
  rewrite H1, (IH H2). reflexivity.
Qed.

Lemma strip_soft_breaks_plain (s : jsstring) :
  Forall (fun c => c <> 61) s -> QuotedPrintable.strip_soft_breaks s = s.
Proof.
  induction 1 as [|c t Hc _ IH]; [reflexivity|].
  cbn [QuotedPrintable.strip_soft_breaks].
  rewrite (proj2 (N.eqb_neq c 61) Hc), IH. reflexivity.
Qed.

Lemma unescape_plain (s : jsstring) :
  Forall (fun c => c <> 61) s -> QuotedPrintable.unescape s = s.
Proof.
  induction 1 as [|c t Hc _ IH]; [reflexivity|].
  cbn [QuotedPrintable.unescape].
  rewrite (proj2 (N.eqb_neq c 61) Hc), IH. reflexivity.
Qed.

Lemma decode_plain (s : jsstring) : qp_plain s -> QuotedPrintable.decode s = s.
Proof.
  intros [H1 H2]. unfold QuotedPrintable.decode.
  rewrite (strip_trailing_space_plain s H2), (strip_soft_breaks_plain s H1).
  apply unescape_plain, H1.
Qed.

Lemma encode_nonempty (padded : bool) (bs : list N) :
  bs <> [] -> Base64url.encode padded bs <> [].
Proof.
  intros Hne E. unfold Base64url.encode in E. apply app_eq_nil in E as [E _].
  apply (groups_nonempty bs Hne). destruct (Base64url.groups bs); [reflexivity | discriminate].
Qed.

(** X11: [decodeContent] undoes base64url. For a non-empty byte string,
    encoded with the alphabet that has [-] and [_], with or without [=]
    padding, it returns the quoted-printable decoding of the bytes, and the
    bytes themselves when they hold no [=] and no TAB or SPACE right before
    a line terminator or the end. *)
Theorem decodeContent_base64url (padded : bool) (bs : list N) :
  bs <> [] -> Forall (fun b => b < 256) bs ->
  decodeContent (Some (Base64url.encode padded bs)) = Ok (QuotedPrintable.decode bs) /\
  (qp_plain bs -> decodeContent (Some (Base64url.encode padded bs)) = Ok bs).
Proof.
  intros Hne Hbs.
  assert (H : decodeContent (Some (Base64url.encode padded bs)) =
              Ok (QuotedPrintable.decode bs)).
  { unfold decodeContent, decodeContent_with.
    destruct (Base64url.encode padded bs) as [|c t] eqn:E;
      [exfalso; apply (encode_nonempty padded bs Hne E)|].
    rewrite <- E. cbv zeta.
    rewrite replace_char_to_standard, (atob_encode padded bs Hne Hbs).
    reflexivity. }
  split; [exact H|]. intros Hp. rewrite H, (decode_plain bs Hp). reflexivity.
Qed.

Lemma decodeContent_base64url_witness :
  decodeContent (Some (Base64url.encode true (js "click http://x.test/verify?tok=1 now"))) =
    Ok (QuotedPrintable.decode (js "click http://x.test/verify?tok=1 now")) /\
  (qp_plain (js "click http://x.test/verify?tok=1 now") ->
   decodeContent (Some (Base64url.encode true (js "click http://x.test/verify?tok=1 now"))) =
     Ok (js "click http://x.test/verify?tok=1 now")).
Proof.
  apply (decodeContent_base64url true (js "click http://x.test/verify?tok=1 now")).
  - discriminate.
  - vm_compute. repeat constructor.
Defined.

(** ** What [decodeContent] can return *)

Lemma list_ind4 {A} (P : list A -> Prop) :
  P [] -> (forall a, P [a]) -> (forall a b, P [a; b]) -> (forall a b c, P [a; b; c]) ->
  (forall a b c d l, P l -> P (a :: b :: c :: d :: l)) ->
  forall l, P l.
Proof.
  intros H0 H1 H2 H3 H4.
  assert (H : forall l, P l /\ (forall a, P (a :: l)) /\ (forall a b, P (a :: b :: l)) /\
                        (forall a b c, P (a :: b :: c :: l))).
  { induction l as [|x l (IH0 & IH1 & IH2 & IH3)]; [auto|].
    split; [apply IH1|]. split; [intros a; apply IH2|].
    split; [intros a b; apply IH3|]. intros a b c. apply H4, IH0. }
  intros l. apply H.
Qed.

Lemma sextet_bound (c v : N) : Base64.sextet c = Some v -> v < 64.
Proof.
  unfold Base64.sextet.
  destruct (N.leb_spec 65 c), (N.leb_spec c 90); simpl; [intros [= <-]; lia|..];
    (destruct (N.leb_spec 97 c), (N.leb_spec c 122); simpl; [intros [= <-]; lia|..]);
    (destruct (N.leb_spec 48 c), (N.leb_spec c 57); simpl; [intros [= <-]; lia|..]);
    destruct (c =? 43); try (intros [= <-]; lia);
    destruct (c =? 47); try (intros [= <-]; lia); discriminate.
Qed.

Lemma sextets_Some (s : jsstring) (vs : list N) :
  Base64.sextets s = Some vs ->
  length vs = length s /\ Forall (fun v => v < 64) vs.
Proof.
  revert vs. induction s as [|c t IH]; simpl; intros vs H.
  - injection H as <-. split; [reflexivity | constructor].
  - destruct (Base64.sextet c) as [v|] eqn:E; [|discriminate].
    destruct (Base64.sextets t) as [ws|]; [|discriminate].
    injection H as <-. destruct (IH ws eq_refl) as [Hl Hf].
    split; [simpl; congruence|]. constructor; [apply (sextet_bound c v E) | exact Hf].
Qed.

Lemma bytes_bound (vs : list N) :
  Forall (fun v => v < 64) vs ->
  Forall (fun b => b < 256) (Base64.bytes vs) /\
  (4 * length (Base64.bytes vs) <= 3 * length vs)%nat.
Proof.
  induction vs as [|a|a b|a b c|a b c d l IH] using list_ind4; intros H.
  - split; [constructor | simpl; lia].
  - split; [constructor | simpl; lia].
  - apply Forall_cons in H as [Ha H]. apply Forall_cons in H as [Hb _].
    cbn [Base64.bytes]. split; [|simpl; lia]. repeat constructor. div_lia.
  - apply Forall_cons in H as [Ha H]. apply Forall_cons in H as [Hb H].
    apply Forall_cons in H as [Hc _].
    cbn [Base64.bytes]. cbv zeta. split; [|simpl; lia].
    repeat constructor; div_lia.
  - apply Forall_cons in H as [Ha H]. apply Forall_cons in H as [Hb H].
    apply Forall_cons in H as [Hc H]. apply Forall_cons in H as [Hd H].
    destruct (IH H) as [IH1 IH2].
    cbn [Base64.bytes]. cbv zeta. split; [|simpl; lia].
    repeat (constructor; [div_lia|]). exact IH1.
Qed.

Lemma length_strip_padding (s : jsstring) :
  (length (Base64.strip_padding s) <= length s)%nat.
Proof.
  unfold Base64.strip_padding.
  assert (Hr : length (rev s) = length s) by apply length_rev.
  destruct (rev s) as [|x r]; [lia|].
  assert (H1 : (length (rev r) <= length s)%nat) by (rewrite length_rev; simpl in Hr; lia).
  assert (H2 : forall y r', r = y :: r' -> (length (rev r') <= length s)%nat).
  { intros y r' ->. rewrite length_rev. simpl in Hr. lia. }
  destruct x as [|p]; [lia|].
  do 6 (destruct p as [p|p|]; try lia).
  destruct r as [|y r']; [exact H1|].
  specialize (H2 y r' eq_refl).
  destruct y as [|p]; [exact H1|].
  do 6 (destruct p as [p|p|]; try exact H1). exact H2.
Qed.

(** What [atob] returns is a byte string of at most three quarters of the
    length of its argument. *)
Lemma atob_bound (s d : jsstring) :
  atob s = Ok d ->
  Forall (fun b => b < 256) d /\ (4 * length d <= 3 * length s)%nat.
Proof.
  unfold atob, Base64.forgiving_decode. cbv zeta.
  match goal with |- context [Base64.sextets ?x] => set (data := x) end.
  assert (Hlen : (length data <= length s)%nat).
  { unfold data. match goal with |- context [filter ?P s] => set (d1 := filter P s) end.
    assert (Hd1 : (length d1 <= length s)%nat) by apply length_filter.
    destruct (_ =? 0); [|assumption].
    pose proof (length_strip_padding d1). lia. }
  destruct (_ =? 1); [discriminate|].
  destruct (Base64.sextets data) as [vs|] eqn:E; [|discriminate].
  simpl. intros [= <-].
  apply sextets_Some in E as [Hl Hv].
  destruct (bytes_bound vs Hv) as [Hb Hn]. split; [exact Hb | lia].
Qed.

Lemma list_length_ind {A} (P : list A -> Prop) :
  (forall l, (forall l', (length l' < length l)%nat -> P l') -> P l) ->
  forall l, P l.
Proof.
  intros H l. remember (length l) as n eqn:E. revert l E.
  induction n as [n IH] using lt_wf_ind. intros l ->.
  apply H. intros l' Hl'. apply (IH (length l') Hl' l' eq_refl).
Qed.

(** The three replacements of [QuotedPrintable], with tests in the place
    of patterns. *)
Lemma strip_soft_breaks_eq (c : N) (t : jsstring) :
  QuotedPrintable.strip_soft_breaks (c :: t) =
  if c =? 61 then
    match t with
    | [] => []
    | d :: t' =>
        if d =? 13 then
          match t' with
          | e :: r => if e =? 10 then QuotedPrintable.strip_soft_breaks r
                      else QuotedPrintable.strip_soft_breaks t'
          | [] => []
          end
        else if d =? 10 then QuotedPrintable.strip_soft_breaks t'
        else c :: QuotedPrintable.strip_soft_breaks t
    end
  else c :: QuotedPrintable.strip_soft_breaks t.
Proof.
  cbn [QuotedPrintable.strip_soft_breaks].
  destruct (c =? 61); [|reflexivity].
  destruct t as [|d t']; [reflexivity|].
  destruct d as [|p]; [reflexivity|].
  do 4 (destruct p as [p|p|]; try reflexivity).
  destruct t' as [|e r]; [reflexivity|].
  destruct e as [|p]; [reflexivity|].
  do 4 (destruct p as [p|p|]; try reflexivity).
Qed.

Lemma strip_trailing_space_bound (P : N -> Prop) (s : jsstring) :
  Forall P s ->
  Forall P (QuotedPrintable.strip_trailing_space s) /\
  (length (QuotedPrintable.strip_trailing_space s) <= length s)%nat.
Proof.
  induction 1 as [|c t Hc _ [IH1 IH2]]; [split; [constructor | reflexivity]|].
  cbn [QuotedPrintable.strip_trailing_space].
  destruct (_ && _); simpl; split; try lia; try assumption.
  constructor; assumption.
Qed.

Lemma strip_soft_breaks_bound (P : N -> Prop) (s : jsstring) :
  Forall P s ->
  Forall P (QuotedPrintable.strip_soft_breaks s) /\
  (length (QuotedPrintable.strip_soft_breaks s) <= length s)%nat.
Proof.
  induction s as [s IH] using list_length_ind. intros Hs.
  destruct s as [|c t]; [split; [constructor | reflexivity]|].
  apply Forall_cons in Hs as [Hc Ht].
  assert (IHt := IH t ltac:(simpl; lia) Ht).
  assert (Hkeep : Forall P (c :: QuotedPrintable.strip_soft_breaks t) /\
                  (length (c :: QuotedPrintable.strip_soft_breaks t) <= length (c :: t))%nat).
  { destruct IHt. split; [constructor; assumption | simpl; lia]. }
  rewrite strip_soft_breaks_eq.
  destruct (c =? 61); [|exact Hkeep].
  destruct t as [|d t']; [split; [constructor | simpl; lia]|].
  apply Forall_cons in Ht as [Hd Ht'].
  assert (IHt' := IH t' ltac:(simpl; lia) Ht').
  destruct (d =? 13).
  - destruct t' as [|e r]; [split; [constructor | simpl; lia]|].
    apply Forall_cons in Ht' as [He Hr].
    destruct (e =? 10).
    + destruct (IH r ltac:(simpl; lia) Hr). split; [assumption | simpl; lia].
    + destruct IHt'. split; [assumption | simpl in *; lia].
  - destruct (d =? 10); [|exact Hkeep].
    destruct IHt'. split; [assumption | simpl in *; lia].
Qed.

Lemma hex_bound (c x : N) : QuotedPrintable.hex c = Some x -> x < 16.
Proof.
  unfold QuotedPrintable.hex.
  destruct (N.leb_spec 48 c), (N.leb_spec c 57); simpl; [intros [= <-]; lia|..];
    (destruct (N.leb_spec 65 c), (N.leb_spec c 70); simpl; [intros [= <-]; lia|..]);
    (destruct (N.leb_spec 97 c), (N.leb_spec c 102); simpl; [intros [= <-]; lia|..]);
    discriminate.
Qed.

Lemma unescape_bound (s : jsstring) :
  Forall (fun b => b < 256) s ->
  Forall (fun b => b < 256) (QuotedPrintable.unescape s) /\
  (length (QuotedPrintable.unescape s) <= length s)%nat.
Proof.
  induction s as [s IH] using list_length_ind. intros Hs.
  destruct s as [|c t]; [split; [constructor | reflexivity]|].
  apply Forall_cons in Hs as [Hc Ht].
  assert (IHt := IH t ltac:(simpl; lia) Ht).
  assert (Hkeep : Forall (fun b => b < 256) (c :: QuotedPrintable.unescape t) /\
                  (length (c :: QuotedPrintable.unescape t) <= length (c :: t))%nat).
  { destruct IHt. split; [constructor; assumption | simpl; lia]. }
  cbn [QuotedPrintable.unescape].
  destruct (c =? 61); [|exact Hkeep].
  destruct t as [|a [|b r]]; try exact Hkeep.
  destruct (QuotedPrintable.hex a) as [x|] eqn:Ex; [|exact Hkeep].
  destruct (QuotedPrintable.hex b) as [y|] eqn:Ey; [|exact Hkeep].
  apply hex_bound in Ex, Ey.
  apply Forall_cons in Ht as [_ Ht]. apply Forall_cons in Ht as [_ Hr].
  destruct (IH r ltac:(simpl; lia) Hr). split; [|simpl; lia].
  constructor; [lia | assumption].
Qed.

Lemma decode_bound (s : jsstring) :
  Forall (fun b => b < 256) s ->
  Forall (fun b => b < 256) (QuotedPrintable.decode s) /\
  (length (QuotedPrintable.decode s) <= length s)%nat.
Proof.
  intros H. unfold QuotedPrintable.decode.
  destruct (strip_trailing_space_bound _ s H) as [H1 L1].
  destruct (strip_soft_breaks_bound _ _ H1) as [H2 L2].
  destruct (unescape_bound _ H2) as [H3 L3].
  split; [exact H3 | lia].
Qed.

(** X12: what [decodeContent] returns is either its argument, given back as
    it was, or a byte string (every code unit below 256) of at most three
    quarters of the argument's length. Text of several bytes per character
    is never put together again. *)
Theorem decodeContent_bytes (s r : jsstring) :
  decodeContent (Some s) = Ok r ->
  r = s \/
  (Forall (fun b => b < 256) r /\ (4 * length r <= 3 * length s)%nat).
Proof.
  unfold decodeContent, decodeContent_with.
  destruct s as [|c t]; [intros [= <-]; left; reflexivity|].
  set (s := c :: t). rewrite replace_char_to_standard.
  destruct (atob (map to_standard s)) as [d|e] eqn:E;
    [|intros [= <-]; left; reflexivity].
  cbn [exn_bind try_catch quotedPrintable_decode]. intros [= <-]. right.
  apply atob_bound in E as [Hd Hl]. rewrite length_map in Hl.
  destruct (decode_bound d Hd) as [Hr Hn]. split; [exact Hr | lia].
Qed.

Lemma decodeContent_bytes_witness :
  [105; 183; 29] = js "abcd" \/
  (Forall (fun b => b < 256) [105; 183; 29] /\
   (4 * length [105; 183; 29] <= 3 * length (js "abcd"))%nat).
Proof.
  apply (decodeContent_bytes (js "abcd") [105; 183; 29]).
  vm_compute. reflexivity.
Defined.

(** ** The address that is sent *)

Lemma skip_blank (s : jsstring) : blank s -> skip RegExp.is_space s = [].
Proof. induction 1 as [|x t Hx _ IH]; [reflexivity|]. simpl. rewrite Hx. exact IH. Qed.

Lemma skip_nil_blank (s : jsstring) : skip RegExp.is_space s = [] -> blank s.
Proof.
  induction s as [|x t IH]; [constructor|]. simpl.
  destruct (RegExp.is_space x) eqn:E; [|discriminate].
  intros H. constructor; [exact E | apply IH, H].
Qed.

Lemma trim_spec (s : jsstring) :
  exists pre post,
    s = pre ++ trim s ++ post /\ blank pre /\ blank post /\
    starts_black (trim s) /\ starts_black (rev (trim s)).
Proof.
  destruct (prefix_run_skip RegExp.is_space s) as (H1 & Hpre & Hhead).
  set (m := skip RegExp.is_space s) in *.
  destruct (prefix_run_skip RegExp.is_space (rev m)) as (H2 & Hpost & Hlast).
  exists (prefix_run RegExp.is_space s), (rev (prefix_run RegExp.is_space (rev m))).
  assert (Hm : m = trim s ++ rev (prefix_run RegExp.is_space (rev m))).
  { unfold trim. fold m. rewrite <- rev_app_distr, <- H2, rev_involutive. reflexivity. }
  split; [rewrite <- Hm; exact H1|]. split; [exact Hpre|].
  split; [apply Forall_forall; intros x Hx; rewrite Forall_forall in Hpost;
          apply Hpost, list_elem_of_In, in_rev, list_elem_of_In, Hx|].
  split.
  - unfold starts_black. destruct (trim s) as [|x t] eqn:E; [exact I|].
    rewrite Hm in Hhead. exact Hhead.
  - unfold trim. fold m. rewrite rev_involutive. exact Hlast.
Qed.

Lemma trim_nil (s : jsstring) : trim s = [] <-> blank s.
Proof.
  split.
  - intros E. destruct (trim_spec s) as (pre & post & Hs & Hpre & Hpost & _).
    rewrite E in Hs. rewrite Hs. apply Forall_app. split; assumption.
  - intros H. unfold trim. rewrite (skip_blank s H). reflexivity.
Qed.

(** X13: [fetchLatestEmails] makes a request exactly when the address has
    a character that is not white space. For a blank address it shows the
    alert and changes nothing else. Otherwise the one request it makes
    carries the address without the white space around it: what is sent
    starts and ends with a character that is not white space. *)
Theorem fetchLatestEmails_address (c : Component) :
  (blank (gmailId c) ->
   fetchLatestEmails c = alert (js "Please enter a valid Gmail ID") c) /\
  (~ blank (gmailId c) ->
   requests (fetchLatestEmails c) =
     requests c ++ [PostFetchLatest (trim (gmailId c))] /\
   alerts (fetchLatestEmails c) = alerts c /\
   loading (fetchLatestEmails c) = true /\
   trim (gmailId c) <> [] /\
   exists pre post,
     gmailId c = pre ++ trim (gmailId c) ++ post /\ blank pre /\ blank post /\
     starts_black (trim (gmailId c)) /\ starts_black (rev (trim (gmailId c)))).
Proof.
  unfold fetchLatestEmails. split.
  - intros H. rewrite (proj2 (trim_nil _) H). reflexivity.
  - intros H.
    assert (Hne : trim (gmailId c) <> []) by (intros E; apply H, trim_nil, E).
    destruct (trim (gmailId c)) as [|x t] eqn:E; [contradiction|].
    rewrite <- E. split; [reflexivity|]. split; [reflexivity|].
    split; [reflexivity|]. split; [rewrite E; discriminate|]. apply trim_spec.
Qed.

Lemma fetchLatestEmails_address_witness :
  requests (fetchLatestEmails (setGmailId (js "  a@x.com ") mounted)) =
    requests (setGmailId (js "  a@x.com ") mounted) ++
    [PostFetchLatest (trim (gmailId (setGmailId (js "  a@x.com ") mounted)))] /\
  alerts (fetchLatestEmails (setGmailId (js "  a@x.com ") mounted)) =
    alerts (setGmailId (js "  a@x.com ") mounted) /\
  loading (fetchLatestEmails (setGmailId (js "  a@x.com ") mounted)) = true /\
  trim (gmailId (setGmailId (js "  a@x.com ") mounted)) <> [] /\
  exists pre post,
    gmailId (setGmailId (js "  a@x.com ") mounted) =
      pre ++ trim (gmailId (setGmailId (js "  a@x.com ") mounted)) ++ post /\
    blank pre /\ blank post /\
    starts_black (trim (gmailId (setGmailId (js "  a@x.com ") mounted))) /\
    starts_black (rev (trim (gmailId (setGmailId (js "  a@x.com ") mounted)))).
Proof.
  apply (proj2 (fetchLatestEmails_address (setGmailId (js "  a@x.com ") mounted))).
  intros H. apply trim_nil in H. vm_compute in H. discriminate.
Defined.

(** ** When the requests have settled *)

Lemma get_prop_truthy (v : jsval) (name : jsstring) :
  truthy_val v = true -> exists x, get_prop v name = Ok x.
Proof. destruct v; simpl; try discriminate; eauto. Qed.

Lemma latest_fields_truthy (data : jsval) :
  truthy_val data = true ->
  exists id snippet status,
    get_prop data (js "id") = Ok id /\
    get_prop data (js "snippet") = Ok snippet /\
    get_prop data (js "verificationStatus") = Ok status /\
    latest_fields data = Ok (id, snippet, status).
Proof.
  intros H.
  destruct (get_prop_truthy data (js "id") H) as [id Hid].
  destruct (get_prop_truthy data (js "snippet") H) as [sn Hsn].
  destruct (get_prop_truthy data (js "verificationStatus") H) as [st Hst].
  exists id, sn, st. unfold latest_fields. rewrite Hid, Hsn, Hst. auto.
Qed.

Lemma single_live_same_sockets (st st' : State) :
  sockets st' = sockets st -> ws_current st' = ws_current st ->
  single_live st -> single_live st'.
Proof.
  intros Hs Hc H i. unfold live_at. rewrite Hs, Hc. apply H.
Qed.

(** The three outcomes of the request of [fetchLatestEmails]. *)
Lemma fetchLatestEmails_settled_cases
  (g : jsstring) (response : exn jsval) (c : Component) :
  single_live (core c) ->
  let c' := fetchLatestEmails_settled g response c in
  loading c' = false /\
  match response with
  | Ok data =>
      if truthy_val data then
        exists id snippet status,
          get_prop data (js "id") = Ok id /\
          get_prop data (js "snippet") = Ok snippet /\
          get_prop data (js "verificationStatus") = Ok status /\
          latestEmails c' = [JObj [(js "id", id); (js "snippet", snippet)]] /\
          emailData (core c') = data /\
          verificationStatus (core c') =
            <[ToString id := status]> (verificationStatus (core c)) /\
          live_sockets (core c') = [length (sockets (core c))] /\
          sockets (core c') !! length (sockets (core c)) =
            Some (mkSocket CONNECTING (trim g) []) /\
          error_text c' = error_text c
      else
        core c' = core c /\ latestEmails c' = latestEmails c /\
        error_text c' = js "No emails found for this Gmail ID"
  | Throw _ =>
      core c' = core c /\ latestEmails c' = latestEmails c /\
      error_text c' = js "Failed to fetch latest emails"
  end.
Proof.
  intros Hlive c'. split; [reflexivity|].
  unfold c', fetchLatestEmails_settled.
  destruct response as [data|e]; [|auto].
  destruct (truthy_val data) eqn:T; [|auto].
  destruct (latest_fields_truthy data T) as (id & sn & st & Hid & Hsn & Hst & ->).
  exists id, sn, st. repeat (split; [assumption || reflexivity|]).
  cbn [core setLoading set_core setLatestEmails].
  set (st1 := setVerificationStatus _ (setEmailData data (core c))).
  assert (H1 : single_live st1)
    by (apply (single_live_same_sockets (core c)); [reflexivity | reflexivity | exact Hlive]).
  change (sockets (core c)) with (sockets st1).
  split; [unfold connectWebSocket; destruct (ws_current st1); reflexivity|].
  split; [unfold connectWebSocket; destruct (ws_current st1); reflexivity|].
  split; [apply live_sockets_connectWebSocket, H1|].
  split; [|reflexivity].
  unfold connectWebSocket, ws_new. cbn [sockets].
  apply list_lookup_middle.
  destruct (ws_current st1); [symmetry; apply length_sockets_ws_close | reflexivity].
Qed.



(** X15: the button of [handleVerifyClick] acts on the message that is
    shown. While the request of [fetchLatestEmails] is pending it does
    nothing; after a response with a message it posts the URL with the id
    of that message and the address without the white space around it;
    after a response without a message or a failed request it does
    nothing again. *)
Theorem handleVerifyClick_target
  (c : Component) (response : exn jsval) (url : jsstring) :
  ~ blank (gmailId c) -> single_live (core c) ->
  let c1 := fetchLatestEmails c in
  let c2 := fetchLatestEmails_settled (gmailId c) response c1 in
  handleVerifyClick url c1 = c1 /\
  match response with
  | Ok data =>
      if truthy_val data then
        exists id,
          get_prop data (js "id") = Ok id /\
          handleVerifyClick url c2 =
            request (PostTriggerVerify url (trim (gmailId c)) id) c2
      else handleVerifyClick url c2 = c2
  | Throw _ => handleVerifyClick url c2 = c2
  end.
Proof.
  intros Hb Hlive c1 c2.
  assert (Hne : trim (gmailId c) <> []) by (intros E; apply Hb, trim_nil, E).
  assert (E1 : emailData (core c1) = JNull /\ gmailId c1 = gmailId c).
  { unfold c1, fetchLatestEmails. destruct (trim (gmailId c)); [contradiction|].
    split; reflexivity. }
  destruct E1 as [E1 G1].
  assert (Hlive1 : single_live (core c1)).
  { unfold c1, fetchLatestEmails. destruct (trim (gmailId c)); exact Hlive. }
  split; [unfold handleVerifyClick; rewrite E1; reflexivity|].
  pose proof (fetchLatestEmails_settled_cases (gmailId c) response c1 Hlive1) as H.
  cbv zeta in H. fold c2 in H. destruct H as [_ H].
  assert (G2 : gmailId c2 = gmailId c).
  { rewrite <- G1. unfold c2, fetchLatestEmails_settled.
    destruct response as [d|];
      [destruct (truthy_val d); [destruct (latest_fields d) as [[[? ?] ?]|]|]|];
      reflexivity. }
  destruct response as [data|e].
  - destruct (truthy_val data) eqn:T.
    + destruct H as (id & sn & st & Hid & _ & _ & _ & Hdata & _).
      exists id. split; [exact Hid|].
      unfold handleVerifyClick. rewrite Hdata, T, Hid, G2. reflexivity.
    + destruct H as (Hcore & _). unfold handleVerifyClick.
      rewrite Hcore, E1. reflexivity.
  - destruct H as (Hcore & _). unfold handleVerifyClick.
    rewrite Hcore, E1. reflexivity.
Qed.

Lemma handleVerifyClick_target_witness :
  let c := setGmailId (js " a@x.com ") mounted in
  let data := JObj [(js "id", JStr (js "m1")); (js "snippet", JStr (js "Hi"))] in
  let c1 := fetchLatestEmails c in
  let c2 := fetchLatestEmails_settled (gmailId c) (Ok data) c1 in
  handleVerifyClick (js "http://x.test/verify?tok=1") c1 = c1 /\
  exists id,
    get_prop data (js "id") = Ok id /\
    handleVerifyClick (js "http://x.test/verify?tok=1") c2 =
      request (PostTriggerVerify (js "http://x.test/verify?tok=1")
                 (trim (gmailId c)) id) c2.
Proof.
  apply (handleVerifyClick_target (setGmailId (js " a@x.com ") mounted)
           (Ok (JObj [(js "id", JStr (js "m1")); (js "snippet", JStr (js "Hi"))]))
           (js "http://x.test/verify?tok=1")).
  - intros H. apply trim_nil in H. vm_compute in H. discriminate.
  - exact single_live_init.
Defined.



